(** * Task Board: the REST client (lib/api.js) and the board view (App.js)

    A shallow embedding of the two source files of the task board and the
    properties of its handlers: optimistic toggle and delete with their
    rollbacks, the add validation, the load frame, the focus filter, the
    progress figures and the save indicator with its timer.

    Conventions of the embedding.
    - A JavaScript string is the list of its UTF-16 code units.
    - A JavaScript number is an IEEE 754 binary64 value, taken from the
      specification of floats of the standard library ([spec_float] at
      precision 53 and maximal exponent 1024), so that [/], [*] and
      [Math.round] round exactly as the engine does.
    - An [async] handler is cut at its single [await]: the part before it
      returns the new state and the call it issues, the part after it takes
      the outcome of the call (resolved or rejected).
    - React state is a record; every [setX] is a function on it.  A handler
      runs from the render that is current when it is invoked, so the
      variables it closes over are the fields of the state it starts from. *)

From Stdlib Require Import List Bool Arith ZArith NArith Lia.
From Stdlib Require Import String Ascii DecimalString.
From Stdlib Require Import SpecFloat.
From Stdlib Require DecimalZ DecimalPos.
From Stdlib Require QArith Qround Qminmax.
Import ListNotations.

Set Implicit Arguments.
Set Warnings "-register-all".

Open Scope string_scope.
Open Scope list_scope.
Open Scope nat_scope.

(* ================================================================== *)
(** * JavaScript values used by the program *)

Module Js.

(** ** Strings *)

Definition jsstring := list N.

(** A source literal, which is ASCII throughout the program. *)
Definition lit (s : string) : jsstring :=
  map N_of_ascii (list_ascii_of_string s).

(** WhiteSpace and LineTerminator code points, the characters that
    [String.prototype.trim] strips. *)
Definition isWhiteSpace (c : N) : bool :=
  existsb (N.eqb c)
    [9; 10; 11; 12; 13; 32; 160; 5760; 8232; 8233; 8239; 8287; 12288; 65279]%N
  || (N.leb 8192 c && N.leb c 8202).

Fixpoint trimStart (s : jsstring) : jsstring :=
  match s with
  | c :: s' => if isWhiteSpace c then trimStart s' else s
  | [] => []
  end.

Definition trimEnd (s : jsstring) : jsstring := rev (trimStart (rev s)).

Definition trim (s : jsstring) : jsstring := trimEnd (trimStart s).

(** ** Numbers *)

Definition number := spec_float.

Definition prec : Z := 53.
Definition emax : Z := 1024.

Definition NaN : number := S754_nan.
Definition of_Z (z : Z) : number := binary_normalize prec emax z 0 false.
Definition of_nat (n : nat) : number := of_Z (Z.of_nat n).

Definition div (x y : number) : number := SFdiv prec emax x y.
Definition mul (x y : number) : number := SFmul prec emax x y.

Definition isNaN (x : number) : bool :=
  match x with S754_nan => true | _ => false end.

Definition isNegZero (x : number) : bool :=
  match x with S754_zero true => true | _ => false end.

(** [Math.max] and [Math.min] of two arguments: NaN if either is NaN, and
    -0 is smaller than +0. *)
Definition Math_max (x y : number) : number :=
  if isNaN x || isNaN y then NaN
  else if SFltb x y then y
  else if SFltb y x then x
  else if isNegZero x then y else x.

Definition Math_min (x y : number) : number :=
  if isNaN x || isNaN y then NaN
  else if SFltb x y then x
  else if SFltb y x then y
  else if isNegZero x then x else y.

(** [Math.round]: the integral number closest to [x], ties towards
    +infinity, that is floor(x + 1/2) computed exactly; the result is -0
    for -0 and for -1/2 <= x < 0.  A finite [x] is [+-m * 2^e]. *)
Definition Math_round (x : number) : number :=
  match x with
  | S754_finite s m e =>
      if (0 <=? e)%Z then x
      else
        let v := if s then Z.neg m else Z.pos m in
        let r := ((2 * v + 2 ^ (- e)) / 2 ^ (1 - e))%Z in
        if (r =? 0)%Z then S754_zero s else of_Z r
  | _ => x
  end.

(** The integer a number denotes, when it is integral and finite. *)
Definition to_integer (x : number) : option Z :=
  match x with
  | S754_zero _ => Some 0%Z
  | S754_finite s m e =>
      let v := if s then Z.neg m else Z.pos m in
      if (0 <=? e)%Z then Some (v * 2 ^ e)%Z
      else if (v mod 2 ^ (- e) =? 0)%Z then Some (v / 2 ^ (- e))%Z
      else None
  | _ => None
  end.

Definition decimal (z : Z) : string := NilZero.string_of_int (Z.to_int z).

(** [Number::toString] on the values a template literal receives here:
    NaN, the infinities, and integral numbers, written in decimal digits.
    ECMAScript prints from 10^21 on in exponent notation and fractions by
    their shortest digits; neither is reproduced (the first is written in
    plain digits, the second as the empty string): the numbers printed by
    this program are results of [Math.round]. *)
Definition toString (x : number) : string :=
  match x with
  | S754_nan => "NaN"
  | S754_infinity false => "Infinity"
  | S754_infinity true => "-Infinity"
  | _ => match to_integer x with
         | Some z => decimal z
         | None => ""
         end
  end.

End Js.

(* ================================================================== *)
(** * The data model: tasks *)

Module Task.
Import Js.

(** A task identifier is opaque to the client; it is compared with [===]
    and spliced into a URL.  JSON gives it as a number or as a string.
    [IdNum n] is the numeric identifier [n], an integer in the safe range
    (below 2^53 in magnitude), where a number is the integer itself;
    fractions and larger numbers are not modelled as identifiers. *)
Inductive Id :=
| IdNum (n : Z)
| IdStr (s : jsstring).

(** [a === b] on identifiers: never equal across the two kinds. *)
Definition strict_eq (a b : Id) : bool :=
  match a, b with
  | IdNum x, IdNum y => (x =? y)%Z
  | IdStr x, IdStr y => if list_eq_dec N.eq_dec x y then true else false
  | _, _ => false
  end.

Record Task := mkTask {
  id : Id;
  title : jsstring;
  completed : bool
}.

(** [{ ...t, completed: c }] *)
Definition with_completed (t : Task) (c : bool) : Task :=
  {| id := id t; title := title t; completed := c |}.

End Task.

(* ================================================================== *)
(** * lib/api.js: the REST client *)

Module Api.
Import Js Task.

(** The outcome of awaiting a promise. *)
Inductive Outcome (A : Type) :=
| Resolved (a : A)
| Rejected.
Arguments Rejected {A}.

Definition and_then {A B} (o : Outcome A) (k : A -> Outcome B) : Outcome B :=
  match o with
  | Resolved a => k a
  | Rejected => Rejected
  end.

Notation "'await' x <- o ;; k" := (and_then o (fun x => k))
  (at level 61, x name, o at next level, right associativity).

(** Bodies on the wire. *)
Inductive Json :=
| JNull
| JBool (b : bool)
| JNum (n : Z)
| JStr (s : jsstring)
| JArr (items : list Json)
| JObj (fields : list (string * Json)).

(** [v.k]: the value of property [k], [None] standing for [undefined]. *)
Fixpoint lookup (k : string) (fields : list (string * Json)) : option Json :=
  match fields with
  | [] => None
  | (k', v) :: rest => if String.eqb k k' then Some v else lookup k rest
  end.

Definition prop (v : Json) (k : string) : option Json :=
  match v with
  | JObj fields => lookup k fields
  | _ => None
  end.

Inductive Method := GET | POST | PATCH | DELETE.

Record Request := mkRequest {
  method : Method;
  url : jsstring;
  body : option Json
}.

(** What axios resolves with; only [data] is read. *)
Record Response := mkResponse { data : Json }.

(** The axios instance [api] of the module (base URL and timeout fixed at
    creation): a request is answered or fails. *)
Definition Http := Request -> Outcome Response.

(** [`${id}`]: a string as it is, a number by [Number::toString], which
    for an integer in the safe range is its decimal digits.  (From 10^21
    on JavaScript prints an exponent; such numbers are outside the range
    of [IdNum].) *)
Definition idToString (i : Id) : jsstring :=
  match i with
  | IdNum n => lit (decimal n)
  | IdStr s => s
  end.

Definition tasks_url : jsstring := lit "/tasks".
Definition task_url (i : Id) : jsstring := lit "/tasks/" ++ idToString i.

Section Client.
Variable api : Http.

Definition listTasks : Outcome Json :=
  await res <- api (mkRequest GET tasks_url None) ;;
  Resolved (data res).

Definition createTask (title : jsstring) : Outcome Json :=
  await res <- api (mkRequest POST tasks_url (Some (JObj [("title", JStr title)]))) ;;
  Resolved (data res).

Definition patchTaskCompletion (i : Id) (completed : bool) : Outcome Json :=
  await res <- api (mkRequest PATCH (task_url i)
                      (Some (JObj [("completed", JBool completed)]))) ;;
  Resolved (data res).

Definition deleteTask (i : Id) : Outcome Json :=
  await _ <- api (mkRequest DELETE (task_url i) None) ;;
  Resolved (JBool true).
End Client.

(** The calls the view makes, as values. *)
Inductive Call :=
| ListTasks
| CreateTask (title : jsstring)
| PatchTaskCompletion (i : Id) (completed : bool)
| DeleteTask (i : Id).

Definition perform (api : Http) (c : Call) : Outcome Json :=
  match c with
  | ListTasks => listTasks api
  | CreateTask title => createTask api title
  | PatchTaskCompletion i completed => patchTaskCompletion api i completed
  | DeleteTask i => deleteTask api i
  end.

(** ** The shapes of the REST table *)

Definition id_json (i : Id) : Json :=
  match i with
  | IdNum n => JNum n
  | IdStr s => JStr s
  end.

(** A Task on the wire: [{ id, title, completed }]. *)
Definition task_json (t : Task) : Json :=
  JObj [("id", id_json (id t)); ("title", JStr (title t));
        ("completed", JBool (completed t))].

(** The body of POST /tasks and PATCH /tasks/{id}: [{ task: Task }]. *)
Definition envelope_json (t : Task) : Json := JObj [("task", task_json t)].

(** Whether a value is a Task: an object with an identifier [id], a
    string [title] and a boolean [completed]. *)
Definition is_task (v : Json) : bool :=
  match prop v "id", prop v "title", prop v "completed" with
  | Some (JNum _ | JStr _), Some (JStr _), Some (JBool _) => true
  | _, _, _ => false
  end.

End Api.

(* ================================================================== *)
(** * App.js: the board *)

Module Board.
Import Js Task.
Import Api (Outcome, Resolved, Rejected, Call).

(** ** Module-level helpers *)

Definition clamp (n min max : number) : number :=
  Math_min max (Math_max min n).

Definition formatPercent (n : number) : string :=
  toString (Math_round n) ++ "%".

(** ** State *)

(** [saveState]: "idle" | "saving" | "saved" | "error". *)
Inductive SaveState := Idle | Saving | Saved | Error.

(** The only callback the program ever schedules. *)
Inductive Callback := SaveStateToIdle.

(** A pending [window.setTimeout]: its handle, the time it is due (in
    milliseconds of the clock) and its callback. *)
Record Timeout := mkTimeout {
  handle : nat;
  due : nat;
  callback : Callback
}.

(** The [useState] cells of [App], the focus of the input behind
    [inputRef], and the part of [window] the component uses: the clock,
    the pending timeouts and the global [__taskBoardSaveTimeout]. *)
Record State := mkState {
  tasks : list Task;
  loading : bool;
  error : string;
  title : jsstring;
  focusMode : bool;
  saveState : SaveState;
  inputFocused : bool;
  clock : nat;
  timeouts : list Timeout;
  nextHandle : nat;
  taskBoardSaveTimeout : option nat
}.

(** The state of the first render, at time 0 with nothing scheduled. *)
Definition initial : State :=
  {| tasks := []; loading := true; error := ""; title := [];
     focusMode := false; saveState := Idle; inputFocused := false;
     clock := 0; timeouts := []; nextHandle := 1;
     taskBoardSaveTimeout := None |}.

(** *** Setters *)

(** [setTasks] with an updater; [setTasks(v)] is [setTasks (fun _ => v)]. *)
Definition setTasks (u : list Task -> list Task) (st : State) : State :=
  mkState (u (tasks st)) (loading st) (error st) (title st) (focusMode st)
    (saveState st) (inputFocused st) (clock st) (timeouts st)
    (nextHandle st) (taskBoardSaveTimeout st).

Definition setLoading (v : bool) (st : State) : State :=
  mkState (tasks st) v (error st) (title st) (focusMode st)
    (saveState st) (inputFocused st) (clock st) (timeouts st)
    (nextHandle st) (taskBoardSaveTimeout st).

Definition setError (v : string) (st : State) : State :=
  mkState (tasks st) (loading st) v (title st) (focusMode st)
    (saveState st) (inputFocused st) (clock st) (timeouts st)
    (nextHandle st) (taskBoardSaveTimeout st).

Definition setTitle (v : jsstring) (st : State) : State :=
  mkState (tasks st) (loading st) (error st) v (focusMode st)
    (saveState st) (inputFocused st) (clock st) (timeouts st)
    (nextHandle st) (taskBoardSaveTimeout st).

Definition setFocusMode (v : bool) (st : State) : State :=
  mkState (tasks st) (loading st) (error st) (title st) v
    (saveState st) (inputFocused st) (clock st) (timeouts st)
    (nextHandle st) (taskBoardSaveTimeout st).

Definition setSaveState (v : SaveState) (st : State) : State :=
  mkState (tasks st) (loading st) (error st) (title st) (focusMode st)
    v (inputFocused st) (clock st) (timeouts st)
    (nextHandle st) (taskBoardSaveTimeout st).

(** [inputRef.current?.focus()] and [.blur()] *)
Definition setInputFocused (v : bool) (st : State) : State :=
  mkState (tasks st) (loading st) (error st) (title st) (focusMode st)
    (saveState st) v (clock st) (timeouts st)
    (nextHandle st) (taskBoardSaveTimeout st).

Notation "st |> f" := (f st) (at level 45, left associativity, only parsing).

(** *** The window: timeouts *)

(** [window.clearTimeout(h)]: drops the pending timeout of that handle;
    nothing happens for [undefined] or for a handle no longer pending. *)
Definition clearTimeout (h : option nat) (st : State) : State :=
  match h with
  | None => st
  | Some i =>
      mkState (tasks st) (loading st) (error st) (title st) (focusMode st)
        (saveState st) (inputFocused st) (clock st)
        (filter (fun t => negb (handle t =? i)) (timeouts st))
        (nextHandle st) (taskBoardSaveTimeout st)
  end.

(** [window.__taskBoardSaveTimeout = window.setTimeout(cb, delay)]: a
    fresh handle, due [delay] after now, stored in the global. *)
Definition setSaveTimeout (cb : Callback) (delay : nat) (st : State) : State :=
  mkState (tasks st) (loading st) (error st) (title st) (focusMode st)
    (saveState st) (inputFocused st) (clock st)
    (timeouts st ++ [mkTimeout (nextHandle st) (clock st + delay) cb])
    (S (nextHandle st)) (Some (nextHandle st)).

Definition run (cb : Callback) (st : State) : State :=
  match cb with
  | SaveStateToIdle => setSaveState Idle st
  end.

(** Time passes by [dt] milliseconds with no other event: the timeouts
    that fall due are removed and their callbacks run, in the order they
    were set. *)
Definition elapse (dt : nat) (st : State) : State :=
  let now := clock st + dt in
  let fired := filter (fun t => due t <=? now) (timeouts st) in
  let pending := filter (fun t => negb (due t <=? now)) (timeouts st) in
  fold_left (fun s t => run (callback t) s) fired
    (mkState (tasks st) (loading st) (error st) (title st) (focusMode st)
       (saveState st) (inputFocused st) now pending
       (nextHandle st) (taskBoardSaveTimeout st)).

(** ** Derived values (the [useMemo] cells) *)

Definition completedCount (ts : list Task) : nat :=
  List.length (filter (fun t => completed t) ts).

Definition totalCount (ts : list Task) : nat := List.length ts.

Definition percent (ts : list Task) : number :=
  if totalCount ts =? 0 then of_nat 0
  else clamp (mul (div (of_nat (completedCount ts)) (of_nat (totalCount ts)))
                  (of_nat 100))
             (of_nat 0) (of_nat 100).

Definition visibleTasks (ts : list Task) (focus : bool) : list Task :=
  if negb focus then ts
  else filter (fun t => negb (completed t)) ts.

Definition allDone (ts : list Task) : bool :=
  (0 <? totalCount ts) && (completedCount ts =? totalCount ts).

(** The text of the progress line: [formatPercent(percent)]. *)
Definition progressText (ts : list Task) : string := formatPercent (percent ts).

(** ** Handlers *)

(** What an awaited [createTask] or [patchTaskCompletion] gives the
    board: the value [res] of which it reads [res.task]; on the wire it is
    the body [Api.envelope_json (task res)]. *)
Record TaskEnvelope := mkEnvelope { task : Task }.

Definition setSavedSoon (st : State) : State :=
  st |> setSaveState Saved
     |> (fun s => clearTimeout (taskBoardSaveTimeout s) s)
     |> setSaveTimeout SaveStateToIdle 1200.

(** *** load *)

Definition load_start (st : State) : State * Call :=
  (st |> setLoading true |> setError "", Api.ListTasks).

Definition load_settle (o : Outcome (list Task)) (st : State) : State :=
  (match o with
   | Resolved data => st |> setTasks (fun _ => data)
   | Rejected => st |> setError "Could not load tasks. Please refresh."
   end) |> setLoading false.

(** *** onAdd *)

Definition onAdd_start (st : State) : State * option Call :=
  let trimmed := trim (title st) in
  if List.length trimmed <? 3 then
    (st |> setError "Task title must be at least 3 characters.", None)
  else
    (st |> setError "" |> setSaveState Saving, Some (Api.CreateTask trimmed)).

Definition onAdd_settle (o : Outcome TaskEnvelope) (st : State) : State :=
  match o with
  | Resolved res =>
      st |> setTasks (fun prev => prev ++ [task res])
         |> setTitle []
         |> setSavedSoon
         |> setInputFocused true
  | Rejected =>
      st |> setSaveState Error
         |> setError "Could not add task. Please try again."
  end.

(** *** onToggle *)

(** The three updaters of [onToggle(task)], in the order of the source:
    the optimistic update, the reconciliation with the response, and the
    revert. *)
Definition toggle_optimistic (task : Task) (prev : list Task) : list Task :=
  map (fun t => if strict_eq (id t) (id task)
                then with_completed t (negb (completed t)) else t) prev.

Definition toggle_reconcile (task : Task) (res : TaskEnvelope)
    (prev : list Task) : list Task :=
  map (fun t => if strict_eq (id t) (id task) then Board.task res else t) prev.

Definition toggle_revert (task : Task) (prev : list Task) : list Task :=
  map (fun t => if strict_eq (id t) (id task)
                then with_completed t (completed task) else t) prev.

Definition onToggle_start (task : Task) (st : State) : State * Call :=
  (st |> setError "" |> setSaveState Saving |> setTasks (toggle_optimistic task),
   Api.PatchTaskCompletion (id task) (negb (completed task))).

Definition onToggle_settle (task : Task) (o : Outcome TaskEnvelope)
    (st : State) : State :=
  match o with
  | Resolved res =>
      st |> setTasks (toggle_reconcile task res) |> setSavedSoon
  | Rejected =>
      st |> setSaveState Error
         |> setError "Could not update task. Please try again."
         |> setTasks (toggle_revert task)
  end.

(** *** onDelete *)

Definition delete_optimistic (task : Task) (p : list Task) : list Task :=
  filter (fun t => negb (strict_eq (id t) (id task))) p.

(** [onDelete(task)] up to its [await]: besides the state and the call,
    the snapshot [prev = tasks] the rest of the handler closes over. *)
Definition onDelete_start (task : Task) (st : State)
    : State * Call * list Task :=
  let prev := tasks st in
  (st |> setError "" |> setSaveState Saving |> setTasks (delete_optimistic task),
   Api.DeleteTask (id task), prev).

Definition onDelete_settle (prev : list Task) (o : Outcome bool)
    (st : State) : State :=
  match o with
  | Resolved _ => st |> setSavedSoon
  | Rejected =>
      st |> setSaveState Error
         |> setError "Could not delete task. Please try again."
         |> setTasks (fun _ => prev)
  end.

(** *** onKeyDown *)

Definition onKeyDown (key : string) (st : State) : State * option Call :=
  let '(st1, call) :=
    if String.eqb key "Enter" then onAdd_start st else (st, None) in
  if String.eqb key "Escape"
  then (st1 |> setTitle [] |> setInputFocused false, call)
  else (st1, call).

(** ** A handler run to its end *)

(** The handler with its call answered before anything else happens. *)
Definition load (o : Outcome (list Task)) (st : State) : State :=
  load_settle o (fst (load_start st)).

Definition onAdd (o : Outcome TaskEnvelope) (st : State) : State :=
  match onAdd_start st with
  | (st1, Some _) => onAdd_settle o st1
  | (st1, None) => st1
  end.

Definition onToggle (task : Task) (o : Outcome TaskEnvelope) (st : State) : State :=
  onToggle_settle task o (fst (onToggle_start task st)).

Definition onDelete (task : Task) (o : Outcome bool) (st : State) : State :=
  let '(st1, _, prev) := onDelete_start task st in
  onDelete_settle prev o st1.

(** ** The board as a transition system *)

(** What can happen to the board: a handler is invoked, a call it made
    settles (the event carries what the suspended handler closed over),
    or time passes. *)
Inductive Event :=
| Load
| LoadSettled (o : Outcome (list Task))
| Add
| AddSettled (o : Outcome TaskEnvelope)
| Toggle (task : Task)
| ToggleSettled (task : Task) (o : Outcome TaskEnvelope)
| Delete (task : Task)
| DeleteSettled (prev : list Task) (o : Outcome bool)
| FocusModeChange (checked : bool)
| TitleChange (value : jsstring)
| KeyDown (key : string)
| Elapse (dt : nat).

Definition calls_of (c : option Call) : list Call :=
  match c with Some c => [c] | None => [] end.

(** The new state and the API calls the event issues. *)
Definition step (e : Event) (st : State) : State * list Call :=
  match e with
  | Load => let '(st', c) := load_start st in (st', [c])
  | LoadSettled o => (load_settle o st, [])
  | Add => let '(st', c) := onAdd_start st in (st', calls_of c)
  | AddSettled o => (onAdd_settle o st, [])
  | Toggle task => let '(st', c) := onToggle_start task st in (st', [c])
  | ToggleSettled task o => (onToggle_settle task o st, [])
  | Delete task => let '(st', c, _) := onDelete_start task st in (st', [c])
  | DeleteSettled prev o => (onDelete_settle prev o st, [])
  | FocusModeChange checked => (setFocusMode checked st, [])
  | TitleChange value => (setTitle value st, [])
  | KeyDown key => let '(st', c) := onKeyDown key st in (st', calls_of c)
  | Elapse dt => (elapse dt st, [])
  end.

(** A sequence of events from a state, and the calls made along it. *)
Fixpoint steps (es : list Event) (st : State) : State * list Call :=
  match es with
  | [] => (st, [])
  | e :: es' =>
      let '(st1, cs1) := step e st in
      let '(st2, cs2) := steps es' st1 in
      (st2, cs1 ++ cs2)
  end.

(** The pending timeouts are at most the one whose handle the global
    holds. *)
Definition timers_ok (st : State) : Prop :=
  match timeouts st with
  | [] => True
  | [t] => taskBoardSaveTimeout st = Some (handle t)
  | _ => False
  end.

End Board.

(* ================================================================== *)
(** * The percentage of the specification, in exact arithmetic *)

Module Exact.
Import QArith Qround Qminmax.

(** The displayed percentage in the words of the specification, in exact
    arithmetic: round(clamp(completed/total*100, 0, 100)), with [round] to
    the nearest integer and a half rounded up, as [Math.round] does. *)
Definition clamp (n lo hi : Q) : Q := Qmin hi (Qmax lo n).

Definition round (x : Q) : Z := Qfloor (x + (1 # 2)).

Definition exact_percent (completed total : nat) : Z :=
  round (clamp (inject_Z (Z.of_nat completed) / inject_Z (Z.of_nat total) * 100)
               0 100).

(** Whether completed/total*100 lies exactly half-way between two
    integers. *)
Definition half_way (completed total : nat) : bool :=
  let y := inject_Z (Z.of_nat completed) / inject_Z (Z.of_nat total) * 100 in
  Qeq_bool (inject_Z (Qfloor y) + (1 # 2)) y.

End Exact.

(* ================================================================== *)
(** * The specification's vocabulary *)

Module Spec.
Import Js Task.

(** [l1] is [l2] with some entries left out, the others in their order. *)
Inductive Subseq {A : Type} : list A -> list A -> Prop :=
| Subseq_nil : Subseq [] []
| Subseq_keep x l1 l2 : Subseq l1 l2 -> Subseq (x :: l1) (x :: l2)
| Subseq_drop x l1 l2 : Subseq l1 l2 -> Subseq l1 (x :: l2).

(** [l'] has the entries of [l] slot for slot, except possibly in the
    slots that hold a task with the identifier of [task]. *)
Definition same_slots (task : Task) (l l' : list Task) : Prop :=
  List.length l' = List.length l /\
  forall i t, nth_error l i = Some t ->
    exists t', nth_error l' i = Some t' /\ (id t <> id task -> t' = t).

(** The number of entries of [l] with the identifier [i]. *)
Definition occurrences (i : Id) (l : list Task) : nat :=
  List.length (filter (fun t => strict_eq (id t) i) l).

(** A backend that answers POST and PATCH as the REST table says, with
    the body [{ task: t }], and fails every other request. *)
Definition envelope_backend (t : Task) : Api.Http :=
  fun r =>
    match Api.method r with
    | Api.POST | Api.PATCH =>
        Api.Resolved (Api.mkResponse (Api.envelope_json t))
    | _ => Api.Rejected
    end.

End Spec.

(* ================================================================== *)
(** * App.js: what the component renders *)

Module View.
Import Js Task Board.

(** The [variant] of the save badge. *)
Inductive BadgeVariant := secondary | default | destructive | outline.

Definition badgeVariant (s : SaveState) : BadgeVariant :=
  match s with
  | Saving => secondary
  | Saved => default
  | Error => destructive
  | Idle => outline
  end.

(** The text of the save badge; 8230 is the ellipsis of "Saving...". *)
Definition badgeText (s : SaveState) : jsstring :=
  match s with
  | Saving => lit "Saving" ++ [8230%N]
  | Saved => lit "Saved"
  | Error => lit "Not saved"
  | Idle => lit "Ready"
  end.

(** One [<li>] of the task list: the checkbox, the struck-through title
    and the line under it. *)
Record Row := mkRow {
  row_task : Task;
  checked : bool;
  struck : bool;
  meta : string
}.

Definition row (t : Task) : Row :=
  mkRow t (completed t) (completed t)
        (if completed t then "Completed" else "Active").

(** The part of the card under the separator. *)
Inductive Region :=
| LoadingMessage
| EmptyState (heading subtitle : string) (showCompletedButton : bool)
| TaskList (rows : list Row).

Definition region (st : State) : Region :=
  let visible := visibleTasks (tasks st) (focusMode st) in
  if loading st then LoadingMessage
  else if List.length visible =? 0 then
    EmptyState
      (if List.length (tasks st) =? 0
       then "No tasks yet." else "Nothing left to focus on.")
      (if List.length (tasks st) =? 0
       then "Add your first task above. Tip: press Enter to add quickly."
       else "Focus Mode is hiding completed tasks.")
      ((0 <? List.length (tasks st)) && focusMode st)
  else TaskList (map row visible).

(** [{error ? <div>{error}</div> : null}]: the empty string is falsy. *)
Definition errorBanner (st : State) : option string :=
  if String.eqb (error st) "" then None else Some (error st).

(** [{formatPercent(percent)} ({completedCount}/{totalCount})] *)
Definition progressLine (ts : list Task) : string :=
  (progressText ts ++ " (" ++ toString (of_nat (completedCount ts)) ++
   "/" ++ toString (of_nat (totalCount ts)) ++ ")")%string.

Record Page := mkPage {
  focusSwitch : bool;
  badge : BadgeVariant * jsstring;
  refreshDisabled : bool;
  allDoneBanner : bool;
  inputValue : jsstring;
  errorMessage : option string;
  progress : string;
  main : Region
}.

Definition render (st : State) : Page :=
  mkPage (focusMode st)
         (badgeVariant (saveState st), badgeText (saveState st))
         (loading st)
         (allDone (tasks st))
         (title st)
         (errorBanner st)
         (progressLine (tasks st))
         (region st).

End View.

(* ================================================================== *)
(** * Vocabulary of the further properties *)

Module Terms.
Import Js Task Board.

(** The titles the board sends: at least 3 code units, fixed by [trim],
    no white space at either end. *)
Definition sendable (t : jsstring) : Prop :=
  3 <= List.length t /\ trim t = t /\
  (forall c r, t = c :: r -> isWhiteSpace c = false) /\
  (forall r c, t = r ++ [c] -> isWhiteSpace c = false).

(** No two entries of the list share an identifier. *)
Definition unique_ids (l : list Task) : Prop := NoDup (map id l).

(** No entry of the list has the identifier [i]. *)
Definition absent (i : Id) (l : list Task) : Prop :=
  forall t, In t l -> id t <> i.

(** The events that begin or end a handler with a network call, or that
    settle one. *)
Definition settles (e : Event) : bool :=
  match e with
  | LoadSettled _ | AddSettled _ | ToggleSettled _ _ | DeleteSettled _ _ => true
  | _ => false
  end.

(** Every pending timeout is due after now and at most the dwell of
    1200 ms from now. *)
Definition due_within_dwell (st : State) : Prop :=
  forall t, In t (timeouts st) -> clock st < due t <= clock st + 1200.

(** What the indicator and the timer keep through every event: a pending
    revert is due later than now and within the dwell, and the status is
    "saved" only while a revert is pending. *)
Definition timer_invariant (st : State) : Prop :=
  due_within_dwell st /\ (saveState st = Saved -> timeouts st <> []).

(** The events that leave the task list alone. *)
Definition keeps_tasks (e : Event) : bool :=
  match e with
  | Load | Add | KeyDown _ | FocusModeChange _ | TitleChange _ | Elapse _ => true
  | LoadSettled o => match o with Api.Rejected => true | _ => false end
  | AddSettled o => match o with Api.Rejected => true | _ => false end
  | DeleteSettled _ o => match o with Api.Resolved _ => true | _ => false end
  | _ => false
  end.

(** The events that issue no call: a call settling, time passing, the
    switch and typing. *)
Definition quiet (e : Event) : bool :=
  settles e ||
  match e with
  | Elapse _ | FocusModeChange _ | TitleChange _ => true
  | _ => false
  end.

(** The event that ends a load. *)
Definition load_settles (e : Event) : bool :=
  match e with LoadSettled _ => true | _ => false end.

(** [Number.isSafeInteger]: the integers a number holds exactly, one by
    one, and prints in plain decimal digits. *)
Definition safe_integer (n : Z) : Prop := (- 2 ^ 53 < n < 2 ^ 53)%Z.

(** [x <= y] on numbers. *)
Definition leq (x y : number) : bool := SFleb x y.

End Terms.

(* ================================================================== *)
(** * Properties *)

Import Js Task Board Spec.
Import Api (Outcome, Resolved, Rejected).

Unset Implicit Arguments.

Create HintDb board.
#[local] Hint Constructors Subseq : board.

(** ** Identifiers and list updaters *)

Lemma strict_eq_spec (a b : Id) : strict_eq a b = true <-> a = b.
Proof.
  destruct a as [x|x], b as [y|y]; simpl; split; intro H;
    try discriminate; try congruence.
  - apply Z.eqb_eq in H. now subst.
  - injection H as ->. apply Z.eqb_refl.
  - destruct (list_eq_dec N.eq_dec x y); [now subst | discriminate].
  - injection H as ->. destruct (list_eq_dec N.eq_dec y y); congruence.
Qed.

Lemma strict_eq_refl (a : Id) : strict_eq a a = true.
Proof. now apply strict_eq_spec. Qed.

Lemma strict_eq_false (a b : Id) : strict_eq a b = false <-> a <> b.
Proof.
  rewrite <- strict_eq_spec. destruct (strict_eq a b); split; congruence.
Qed.

Lemma with_completed_same (t : Task) : with_completed t (completed t) = t.
Proof. now destruct t. Qed.

Lemma with_completed_twice (t : Task) (c c' : bool) :
  with_completed (with_completed t c) c' = with_completed t c'.
Proof. reflexivity. Qed.

Lemma filter_Subseq {A} (p : A -> bool) (l : list A) : Subseq (filter p l) l.
Proof.
  induction l as [|x l IH]; simpl; [constructor|].
  destruct (p x); auto with board.
Qed.

Lemma filter_length_split {A} (p : A -> bool) (l : list A) :
  List.length (filter p l) + List.length (filter (fun x => negb (p x)) l)
  = List.length l.
Proof.
  induction l as [|x l IH]; simpl; [reflexivity|].
  destruct (p x); simpl; lia.
Qed.

(** A [map] whose function keeps the tasks of other identifiers keeps the
    slots. *)
Lemma map_same_slots (task : Task) (f : Task -> Task) (l : list Task) :
  (forall t, id t <> id task -> f t = t) ->
  same_slots task l (map f l).
Proof.
  intros Hf. split; [apply length_map|].
  intros i t Hi. exists (f t). split; [now apply map_nth_error|].
  apply Hf.
Qed.

Lemma if_other_id {A} (t task : Task) (a b : A) :
  id t <> id task -> (if strict_eq (id t) (id task) then a else b) = b.
Proof.
  intros H. destruct (strict_eq (id t) (id task)) eqn:E; [|reflexivity].
  apply strict_eq_spec in E. contradiction.
Qed.

Lemma toggle_optimistic_slots task l : same_slots task l (toggle_optimistic task l).
Proof. apply map_same_slots. intros t H. now apply if_other_id. Qed.

Lemma toggle_reconcile_slots task res l :
  same_slots task l (toggle_reconcile task res l).
Proof. apply map_same_slots. intros t H. now apply if_other_id. Qed.

Lemma toggle_revert_slots task l : same_slots task l (toggle_revert task l).
Proof. apply map_same_slots. intros t H. now apply if_other_id. Qed.

Lemma toggle_optimistic_ids task l : map id (toggle_optimistic task l) = map id l.
Proof.
  unfold toggle_optimistic. rewrite map_map. apply map_ext.
  intros t. now destruct (strict_eq (id t) (id task)).
Qed.

Lemma toggle_revert_ids task l : map id (toggle_revert task l) = map id l.
Proof.
  unfold toggle_revert. rewrite map_map. apply map_ext.
  intros t. now destruct (strict_eq (id t) (id task)).
Qed.

(** Reverting after the optimistic flip, slot by slot. *)
Lemma revert_after_flip task l :
  toggle_revert task (toggle_optimistic task l)
  = map (fun t => if strict_eq (id t) (id task)
                  then with_completed t (completed task) else t) l.
Proof.
  unfold toggle_revert, toggle_optimistic. rewrite map_map. apply map_ext.
  intros t. destruct (strict_eq (id t) (id task)) eqn:E; simpl; now rewrite E.
Qed.

(** ** What [setSavedSoon] leaves alone *)

Lemma clearTimeout_tasks h st : tasks (clearTimeout h st) = tasks st.
Proof. now destruct h. Qed.

Lemma setSavedSoon_tasks st : tasks (setSavedSoon st) = tasks st.
Proof. unfold setSavedSoon. simpl. now rewrite clearTimeout_tasks. Qed.

Lemma onToggle_settle_resolved_tasks task res st :
  tasks (onToggle_settle task (Resolved res) st)
  = toggle_reconcile task res (tasks st).
Proof. simpl. now rewrite clearTimeout_tasks. Qed.

(** ** Toggle: rollback and frame *)

(** Whatever happened since the toggle began, the failure handler leaves
    every entry with the identifier of the toggled task with the
    [completed] flag of the snapshot. *)
Lemma toggle_revert_flag task mid t :
  In t (tasks (onToggle_settle task Rejected mid)) ->
  id t = id task -> completed t = completed task.
Proof.
  simpl. unfold toggle_revert. rewrite in_map_iff.
  intros [u [Hu _]] Hid. subst t.
  destruct (strict_eq (id u) (id task)) eqn:E; [reflexivity|].
  apply strict_eq_false in E. contradiction.
Qed.

(** C1. If the call of a toggle fails, then after the failure handler every
    slot of the list that held the toggled task holds it again as it was
    before the toggle began: the flag written back is the one of the
    snapshot [task], so the optimistic flip is undone; the status is
    "error" and the update message is shown. *)
Theorem toggle_failure_reverts_flag (st : State) (task : Task) (i : nat) :
  nth_error (tasks st) i = Some task ->
  let st1 := fst (onToggle_start task st) in
  let st2 := onToggle_settle task Rejected st1 in
  (exists t1, nth_error (tasks st1) i = Some t1 /\
              completed t1 = negb (completed task)) /\
  (exists t2, nth_error (tasks st2) i = Some t2 /\
              completed t2 = completed task /\ t2 = task) /\
  saveState st2 = Error /\
  error st2 = "Could not update task. Please try again.".
Proof.
  intros Hi. cbn zeta. repeat split.
  - exists (with_completed task (negb (completed task))). split; [|reflexivity].
    simpl. unfold toggle_optimistic.
    rewrite (map_nth_error _ _ _ Hi). now rewrite strict_eq_refl.
  - exists task. split; [|split; reflexivity].
    simpl. rewrite revert_after_flip.
    rewrite (map_nth_error _ _ _ Hi).
    now rewrite strict_eq_refl, with_completed_same.
Qed.

Lemma toggle_failure_reverts_flag_witness :
  let t := mkTask (IdNum 1) (lit "Buy milk") false in
  let st := load (Resolved [t]) initial in
  nth_error (tasks st) 0 = Some t /\
  nth_error (tasks (onToggle t Rejected st)) 0 = Some t.
Proof.
  cbn zeta. split; [reflexivity|].
  destruct (toggle_failure_reverts_flag
              (load (Resolved [mkTask (IdNum 1) (lit "Buy milk") false]) initial)
              (mkTask (IdNum 1) (lit "Buy milk") false) 0 eq_refl)
    as [_ [[t2 [H2 [_ E]]] _]].
  subst t2. exact H2.
Defined.

(** C9. Each of the three updates of the toggle action (the optimistic
    flip, the reconciliation with the response, the revert) keeps the
    length of the list and every slot holding a task of another identifier
    as it is; the flip and the revert also keep the identifiers and titles
    of all slots, so the order of the entries is the same. *)
Theorem toggle_updates_frame (task : Task) (res : TaskEnvelope) (st : State) :
  same_slots task (tasks st) (tasks (fst (onToggle_start task st))) /\
  same_slots task (tasks st) (tasks (onToggle_settle task (Resolved res) st)) /\
  same_slots task (tasks st) (tasks (onToggle_settle task Rejected st)) /\
  map id (tasks (fst (onToggle_start task st))) = map id (tasks st) /\
  map id (tasks (onToggle_settle task Rejected st)) = map id (tasks st) /\
  map Task.title (tasks (fst (onToggle_start task st))) = map Task.title (tasks st) /\
  map Task.title (tasks (onToggle_settle task Rejected st)) = map Task.title (tasks st).
Proof.
  rewrite onToggle_settle_resolved_tasks. simpl.
  split; [|split; [|split; [|split; [|split; [|split]]]]].
  - apply toggle_optimistic_slots.
  - apply toggle_reconcile_slots.
  - apply toggle_revert_slots.
  - apply toggle_optimistic_ids.
  - apply toggle_revert_ids.
  - unfold toggle_optimistic. rewrite map_map. apply map_ext.
    intros t. now destruct (strict_eq (id t) (id task)).
  - unfold toggle_revert. rewrite map_map. apply map_ext.
    intros t. now destruct (strict_eq (id t) (id task)).
Qed.

(** ** Delete: rollback and removal *)

(** C2. If the call of a delete fails, then after the failure handler the
    list is the snapshot taken before the optimistic removal, the same
    entries in the same order, whatever the list had become in between;
    in particular when the call fails before anything else happens. *)
Theorem delete_failure_restores_snapshot (st : State) (task : Task) :
  let '(st1, _, prev) := onDelete_start task st in
  prev = tasks st /\
  tasks st1 = delete_optimistic task (tasks st) /\
  (forall mid, tasks (onDelete_settle prev Rejected mid) = tasks st) /\
  tasks (onDelete task Rejected st) = tasks st /\
  saveState (onDelete task Rejected st) = Error /\
  error (onDelete task Rejected st) = "Could not delete task. Please try again.".
Proof. simpl. repeat split. Qed.

(** C10. The optimistic removal of the delete action filters by
    identifier: no entry with the identifier of the target is left, however
    many there were; the result is a subsequence of the list, so the
    entries that stay keep their relative order; and exactly the entries
    with the identifier of the target are gone. *)
Theorem delete_removes_by_id (task : Task) (st : State) :
  let l := tasks st in
  let l' := tasks (fst (fst (onDelete_start task st))) in
  (forall t, In t l' -> id t <> id task) /\
  (forall t, In t l -> id t <> id task -> In t l') /\
  Subseq l' l /\
  List.length l' + occurrences (id task) l = List.length l /\
  occurrences (id task) l' = 0.
Proof.
  cbn zeta. simpl. unfold delete_optimistic, occurrences. repeat split.
  - intros t Ht. apply filter_In in Ht. destruct Ht as [_ Ht].
    apply negb_true_iff in Ht. now apply strict_eq_false.
  - intros t Ht Hid. apply filter_In. split; [exact Ht|].
    apply negb_true_iff. now apply strict_eq_false.
  - apply filter_Subseq.
  - rewrite Nat.add_comm.
    apply (filter_length_split (fun t => strict_eq (id t) (id task))).
  - induction (tasks st) as [|t l IH]; simpl; [reflexivity|].
    destruct (strict_eq (id t) (id task)) eqn:E; simpl; [exact IH|].
    now rewrite E.
Qed.

(** ** Progress figures *)

Lemma completedCount_le_totalCount ts : completedCount ts <= totalCount ts.
Proof.
  unfold completedCount, totalCount.
  induction ts as [|t ts IH]; simpl; [lia|].
  destruct (completed t); simpl; lia.
Qed.

Lemma totalCount_zero ts : totalCount ts = 0 <-> ts = [].
Proof.
  unfold totalCount. split; [|now intros ->].
  now destruct ts.
Qed.

(** *** The exact percentage as an integer quotient *)

Module ExactFacts.
Import QArith Qround Qminmax.

Lemma quotient_as_fraction (c t : Z) :
  (0 < t)%Z ->
  inject_Z c / inject_Z t * 100 == (100 * c) # (Z.to_pos t).
Proof.
  intros Ht. rewrite (Qmake_Qdiv (100 * c) (Z.to_pos t)).
  rewrite Z2Pos.id by exact Ht. rewrite inject_Z_mult.
  field. intros H. unfold Qeq in H. simpl in H. lia.
Qed.

Lemma exact_percent_eq (c t : nat) :
  (0 < t)%nat -> (c <= t)%nat ->
  Exact.exact_percent c t
  = ((200 * Z.of_nat c + Z.of_nat t) / (2 * Z.of_nat t))%Z.
Proof.
  intros Ht Hc. unfold Exact.exact_percent, Exact.round, Exact.clamp.
  set (y := inject_Z (Z.of_nat c) / inject_Z (Z.of_nat t) * 100).
  assert (Ey : y == (100 * Z.of_nat c) # (Z.to_pos (Z.of_nat t)))
    by (apply quotient_as_fraction; lia).
  assert (H0 : 0 <= y).
  { rewrite Ey. unfold Qle. cbn [Qnum Qden]. lia. }
  assert (H100 : y <= 100).
  { rewrite Ey. unfold Qle. cbn [Qnum Qden]. rewrite Z2Pos.id by lia. lia. }
  assert (E1 : Qmin 100 (Qmax 0 y) == y).
  { rewrite (Q.max_r 0 y H0). apply Q.min_r. exact H100. }
  rewrite E1, Ey.
  assert (E2 : ((100 * Z.of_nat c) # (Z.to_pos (Z.of_nat t))) + (1 # 2)
               == (200 * Z.of_nat c + Z.of_nat t) # (Z.to_pos (2 * Z.of_nat t))).
  { unfold Qeq, Qplus. cbn [Qnum Qden].
    rewrite !Pos2Z.inj_mul, !Z2Pos.id by lia.
    replace (Z.pos (Z.to_pos (2 * Z.of_nat t))) with (2 * Z.of_nat t)%Z
      by (rewrite Z2Pos.id; lia).
    ring. }
  rewrite E2. unfold Qfloor. rewrite Z2Pos.id by lia. reflexivity.
Qed.

Lemma half_way_intro (c t : nat) (R : Z) :
  (0 < t)%nat ->
  (200 * Z.of_nat c + Z.of_nat t = 2 * Z.of_nat t * R)%Z ->
  Exact.half_way c t = true.
Proof.
  intros Ht HR. unfold Exact.half_way.
  set (y := inject_Z (Z.of_nat c) / inject_Z (Z.of_nat t) * 100).
  assert (Ey : y == (100 * Z.of_nat c) # (Z.to_pos (Z.of_nat t)))
    by (apply quotient_as_fraction; lia).
  assert (Ef : Qfloor y = (100 * Z.of_nat c / Z.of_nat t)%Z).
  { rewrite (Qfloor_comp _ _ Ey). unfold Qfloor. now rewrite Z2Pos.id by lia. }
  apply Qeq_bool_iff. rewrite Ef. rewrite Ey.
  assert (F : (100 * Z.of_nat c / Z.of_nat t = R - 1)%Z).
  { symmetry. apply (Z.div_unique_pos _ _ _ (100 * Z.of_nat c - Z.of_nat t * (R - 1))%Z);
      nia. }
  rewrite F. unfold Qeq, Qplus. cbn [Qnum Qden inject_Z].
  rewrite !Pos2Z.inj_mul, !Z2Pos.id by lia. nia.
Qed.
End ExactFacts.

(** *** Binary64: conversion, division and multiplication *)

Open Scope Z_scope.

Lemma digits2_pos_size (p : positive) : digits2_pos p = Pos.size p.
Proof. induction p; simpl; congruence. Qed.

Lemma Zdigits2_log2 (m : Z) : 0 < m -> Zdigits2 m = Z.log2 m + 1.
Proof.
  destruct m as [|p|p]; try lia. intros _. simpl.
  rewrite digits2_pos_size. destruct p; simpl; lia.
Qed.

Lemma Zdigits2_bounds (m : Z) :
  0 < m -> 2 ^ (Zdigits2 m - 1) <= m < 2 ^ Zdigits2 m.
Proof.
  intros H. rewrite (Zdigits2_log2 m H).
  replace (Z.log2 m + 1 - 1) with (Z.log2 m) by lia.
  pose proof (Z.log2_spec m H). unfold Z.succ in *. lia.
Qed.

Lemma Zdigits2_unique (m d : Z) :
  2 ^ (d - 1) <= m < 2 ^ d -> 0 < d -> Zdigits2 m = d.
Proof.
  intros H Hd. assert (0 < m) by (pose proof (Z.pow_pos_nonneg 2 (d-1)); lia).
  rewrite Zdigits2_log2 by lia.
  assert (E : Z.log2 m = d - 1).
  { apply Z.log2_unique; [lia|]. replace (Z.succ (d - 1)) with d by lia. exact H. }
  lia.
Qed.

Lemma shr_1_m (mrs : shr_record) :
  0 <= shr_m mrs -> shr_m (shr_1 mrs) = shr_m mrs / 2 /\ 0 <= shr_m (shr_1 mrs).
Proof.
  destruct mrs as [m r s]. simpl. intros H.
  destruct m as [|p|p]; try lia; [simpl; split; [reflexivity|lia]|].
  destruct p; simpl.
  - split; [|lia]. rewrite Pos2Z.inj_xI. apply Z.div_unique with 1; lia.
  - split; [|lia]. rewrite Pos2Z.inj_xO. apply Z.div_unique with 0; lia.
  - split; [reflexivity|lia].
Qed.

Lemma iter_pos_shr_m (p : positive) (mrs : shr_record) :
  0 <= shr_m mrs ->
  shr_m (iter_pos shr_1 p mrs) = shr_m mrs / 2 ^ Zpos p /\
  0 <= shr_m (iter_pos shr_1 p mrs).
Proof.
  revert mrs. induction p as [p IH|p IH|]; intros mrs H; simpl iter_pos.
  - destruct (shr_1_m mrs H) as [E1 P1].
    destruct (IH _ P1) as [E2 P2]. destruct (IH _ P2) as [E3 P3].
    split; [|exact P3]. rewrite E3, E2, E1.
    rewrite !Z.div_div by (try apply Z.pow_pos_nonneg; lia).
    f_equal. change 2 with (2 ^ 1) at 1.
    rewrite <- !Z.pow_add_r by lia. f_equal. lia.
  - destruct (IH _ H) as [E2 P2]. destruct (IH _ P2) as [E3 P3].
    split; [|exact P3]. rewrite E3, E2.
    rewrite !Z.div_div by (try apply Z.pow_pos_nonneg; lia).
    f_equal. rewrite <- Z.pow_add_r by lia. f_equal. lia.
  - destruct (shr_1_m mrs H) as [E1 P1]. split; [|exact P1].
    rewrite E1. reflexivity.
Qed.

Lemma shr_record_of_loc_m m l : shr_m (shr_record_of_loc m l) = m.
Proof. destruct l as [|[]]; reflexivity. Qed.

(** [shr] by [n >= 0] positions divides the mantissa by 2^n. *)
Lemma shr_m_div (mrs : shr_record) (e n : Z) :
  0 <= shr_m mrs -> 0 <= n ->
  shr_m (fst (shr mrs e n)) = shr_m mrs / 2 ^ n /\ snd (shr mrs e n) = e + n.
Proof.
  intros H Hn. destruct n as [|p|p]; try lia; simpl.
  - split; [|lia]. now rewrite Z.div_1_r.
  - split; [|reflexivity]. now apply iter_pos_shr_m.
Qed.

Lemma fexp_normal (x : Z) : -1021 <= x -> fexp 53 1024 x = x - 53.
Proof. unfold fexp, emin. lia. Qed.

Lemma round_nearest_even_cases (m : Z) (l : location) :
  round_nearest_even m l = m \/ round_nearest_even m l = m + 1.
Proof.
  destruct l as [|[]]; simpl; auto. destruct (Z.even m); auto.
Qed.

Lemma shr_fexp_spec (m e : Z) (l : location) :
  0 < m -> 53 <= Zdigits2 m -> -1074 <= e ->
  let n := Zdigits2 m - 53 in
  shr_m (fst (shr_fexp 53 1024 m e l)) = m / 2 ^ n /\
  snd (shr_fexp 53 1024 m e l) = e + n.
Proof.
  intros Hm Hd He n. unfold shr_fexp.
  rewrite fexp_normal by lia.
  replace (Zdigits2 m + e - 53 - e) with n by (unfold n; lia).
  destruct (shr_m_div (shr_record_of_loc m l) e n) as [H1 H2];
    [rewrite shr_record_of_loc_m; lia | unfold n; lia |].
  rewrite shr_record_of_loc_m in H1. now split.
Qed.

Lemma div_pow2_digits (m n : Z) :
  0 < m -> 0 <= n -> Zdigits2 m = 53 + n ->
  2 ^ 52 <= m / 2 ^ n < 2 ^ 53.
Proof.
  intros Hm Hn Hd. pose proof (Zdigits2_bounds m Hm) as B. rewrite Hd in B.
  assert (P : 0 < 2 ^ n) by (apply Z.pow_pos_nonneg; lia).
  replace (53 + n - 1) with (52 + n) in B by lia.
  rewrite !Z.pow_add_r in B by lia. split.
  - apply Z.div_le_lower_bound; lia.
  - apply Z.div_lt_upper_bound; lia.
Qed.

(** Rounding to 53 bits: the result is a normal number within one unit in
    the last place of the integer it was given. *)
Lemma binary_round_aux_spec (s : bool) (mx ex : Z) (lx : location) :
  0 < mx -> 53 <= Zdigits2 mx -> -1074 <= ex -> Zdigits2 mx + ex <= 1023 ->
  exists (m : positive) (e : Z),
    binary_round_aux 53 1024 s mx ex lx = S754_finite s m e /\
    2 ^ 52 <= Zpos m < 2 ^ 53 /\ ex <= e /\
    e <= Zdigits2 mx + ex - 52 /\
    (Zpos m - 1) * 2 ^ (e - ex) <= mx < (Zpos m + 1) * 2 ^ (e - ex).
Proof.
  intros Hm Hd He Ho. unfold binary_round_aux.
  set (n := Zdigits2 mx - 53).
  destruct (shr_fexp_spec mx ex lx Hm Hd He) as [E1 E2]. fold n in E1, E2.
  destruct (shr_fexp 53 1024 mx ex lx) as [mrs' e'] eqn:S1. simpl in E1, E2.
  assert (Hn : 0 <= n) by (unfold n; lia).
  assert (P : 0 < 2 ^ n) by (apply Z.pow_pos_nonneg; lia).
  pose proof (div_pow2_digits mx n Hm Hn ltac:(unfold n; lia)) as B.
  set (m' := mx / 2 ^ n) in *.
  assert (Hdm : m' * 2 ^ n <= mx < (m' + 1) * 2 ^ n).
  { unfold m'. pose proof (Z.mul_div_le mx (2 ^ n) P).
    pose proof (Z.mul_succ_div_gt mx (2 ^ n) P). unfold Z.succ in *. lia. }
  set (m'' := round_nearest_even (shr_m mrs') (loc_of_shr_record mrs')).
  assert (Hr : m'' = m' \/ m'' = m' + 1).
  { unfold m''. rewrite E1. apply round_nearest_even_cases. }
  destruct (Z.eq_dec m'' (2 ^ 53)) as [C|C].
  - (* carry *)
    assert (Hd2 : Zdigits2 m'' = 54).
    { apply Zdigits2_unique; [|lia]. rewrite C. simpl. lia. }
    destruct (shr_fexp_spec m'' e' loc_Exact) as [F1 F2]; [lia | lia | lia|].
    rewrite Hd2 in F1, F2. replace (54 - 53) with 1 in F1, F2 by lia.
    destruct (shr_fexp 53 1024 m'' e' loc_Exact) as [mrs'' e''] eqn:S2.
    simpl in F1, F2. rewrite F1, C.
    change (2 ^ 53 / 2 ^ 1) with (Zpos (2 ^ 52)).
    assert (Le : (e'' <=? 1024 - 53) = true) by (apply Z.leb_le; lia).
    rewrite Le. exists (2 ^ 52)%positive, e''. split; [reflexivity|].
    split; [simpl; lia|]. split; [lia|]. split; [lia|].
    replace (e'' - ex) with (n + 1) by lia. rewrite Z.pow_add_r by lia.
    change (Z.pos (2 ^ 52)) with (2 ^ 52). change (2 ^ 1) with 2.
    assert (m' = 2 ^ 53 - 1) by lia. nia.
  - assert (B2 : 2 ^ 52 <= m'' < 2 ^ 53) by lia.
    assert (Hd2 : Zdigits2 m'' = 53).
    { apply Zdigits2_unique; [|lia]. exact B2. }
    destruct (shr_fexp_spec m'' e' loc_Exact) as [F1 F2]; [lia | lia | lia|].
    rewrite Hd2 in F1, F2. replace (53 - 53) with 0 in F1, F2 by lia.
    destruct (shr_fexp 53 1024 m'' e' loc_Exact) as [mrs'' e''] eqn:S2.
    simpl in F1, F2. rewrite F1. change (2 ^ 0) with 1. rewrite Z.div_1_r.
    destruct m'' as [|p|p] eqn:Em; try lia.
    assert (Le : (e'' <=? 1024 - 53) = true) by (apply Z.leb_le; lia).
    rewrite Le. exists p, e''. split; [reflexivity|].
    split; [lia|]. split; [lia|]. split; [lia|].
    replace (e'' - ex) with n by lia. nia.
Qed.

Lemma binary_round_aux_exact (s : bool) (m : positive) (e : Z) :
  2 ^ 52 <= Zpos m < 2 ^ 53 -> -1074 <= e <= 971 ->
  binary_round_aux 53 1024 s (Zpos m) e loc_Exact = S754_finite s m e.
Proof.
  intros Hm He.
  assert (Hd : Zdigits2 (Zpos m) = 53) by (apply Zdigits2_unique; [exact Hm | lia]).
  unfold binary_round_aux, shr_fexp. rewrite Hd, fexp_normal by lia.
  replace (53 + e - 53 - e) with 0 by lia. simpl shr. cbn iota beta.
  simpl round_nearest_even. rewrite Hd, fexp_normal by lia.
  replace (53 + e - 53 - e) with 0 by lia. simpl.
  assert (Le : (e <=? 971) = true) by (apply Z.leb_le; lia).
  now rewrite Le.
Qed.

Lemma iter_xO (m k : positive) : Zpos (Pos.iter xO m k) = Zpos m * 2 ^ Zpos k.
Proof.
  rewrite <- Z.shiftl_mul_pow2 by lia. simpl.
  apply (Pos.iter_swap_gen _ _ Zpos xO (Z.mul 2)). reflexivity.
Qed.

(** An integer below 2^53 is a number, exactly. *)
Lemma of_Z_exact (z : Z) :
  0 < z < 2 ^ 53 ->
  exists (m : positive) (a : Z),
    of_Z z = S754_finite false m (- a) /\
    2 ^ 52 <= Zpos m < 2 ^ 53 /\ 0 <= a <= 52 /\ Zpos m = z * 2 ^ a.
Proof.
  intros Hz. destruct z as [|p|p]; try lia.
  unfold of_Z, prec, emax, binary_normalize, binary_round.
  set (d := Zpos (digits2_pos p)).
  assert (Hd : d = Zdigits2 (Zpos p)) by reflexivity.
  pose proof (Zdigits2_bounds (Zpos p) ltac:(lia)) as B. rewrite <- Hd in B.
  assert (Hd1 : 1 <= d <= 53).
  { split; [unfold d; lia|].
    destruct (Z_le_gt_dec d 53) as [L|G]; [exact L|].
    assert (2 ^ 53 <= 2 ^ (d - 1)) by (apply Z.pow_le_mono_r; lia). lia. }
  rewrite fexp_normal by lia. unfold shl_align.
  replace (d + 0 - 53 - 0) with (d - 53) by lia.
  destruct (d - 53) as [|k|k] eqn:Ek; try lia.
  - exists p, 0. rewrite binary_round_aux_exact.
    + repeat split; try lia; replace d with 53 in B by lia; simpl in B |- *; lia.
    + replace d with 53 in B by lia. simpl in B. lia.
    + lia.
  - assert (Hk : Zpos k = 53 - d) by lia.
    assert (Hm : Zpos (Pos.iter xO p k) = Zpos p * 2 ^ (53 - d))
      by (rewrite <- Hk; apply iter_xO).
    assert (Bm : 2 ^ 52 <= Zpos p * 2 ^ (53 - d) < 2 ^ 53).
    { assert (E1 : 2 ^ 52 = 2 ^ (d - 1) * 2 ^ (53 - d))
        by (rewrite <- Z.pow_add_r by lia; f_equal; lia).
      assert (E2 : 2 ^ 53 = 2 ^ d * 2 ^ (53 - d))
        by (rewrite <- Z.pow_add_r by lia; f_equal; lia).
      rewrite E1, E2.
      assert (0 < 2 ^ (53 - d)) by (apply Z.pow_pos_nonneg; lia).
      generalize dependent (2 ^ (53 - d)). generalize dependent (2 ^ (d - 1)).
      generalize dependent (2 ^ d). intros; nia. }
    exists (Pos.iter xO p k), (53 - d).
    rewrite binary_round_aux_exact; [|rewrite Hm; exact Bm | lia].
    split; [f_equal; lia|]. split; [rewrite Hm; exact Bm|].
    split; [lia | exact Hm].
Qed.

Lemma Zdigits2_ge (m k : Z) : 0 <= k -> 2 ^ k <= m -> k + 1 <= Zdigits2 m.
Proof.
  intros Hk H. assert (Hm : 0 < m) by (pose proof (Z.pow_pos_nonneg 2 k); lia).
  pose proof (Zdigits2_bounds m Hm) as [_ B].
  destruct (Z_le_gt_dec (k + 1) (Zdigits2 m)) as [L|G]; [exact L|].
  assert (2 ^ Zdigits2 m <= 2 ^ k) by (apply Z.pow_le_mono_r; lia). lia.
Qed.

Lemma Zdigits2_le (m k : Z) : 0 < m -> 0 <= k -> m < 2 ^ k -> Zdigits2 m <= k.
Proof.
  intros Hm Hk H. pose proof (Zdigits2_bounds m Hm) as [B _].
  destruct (Z_le_gt_dec (Zdigits2 m) k) as [L|G]; [exact L|].
  assert (2 ^ k <= 2 ^ (Zdigits2 m - 1)) by (apply Z.pow_le_mono_r; lia). lia.
Qed.

(** The quotient of two normal numbers of moderate exponent: a normal
    number within one unit in the last place of the exact quotient. *)
Lemma div_spec (m1 m2 : positive) (a b : Z) :
  2 ^ 52 <= Zpos m1 < 2 ^ 53 -> 2 ^ 52 <= Zpos m2 < 2 ^ 53 ->
  0 <= a <= 52 -> 0 <= b <= 52 ->
  exists (m : positive) (n : Z),
    div (S754_finite false m1 (- a)) (S754_finite false m2 (- b))
    = S754_finite false m (b - a - 53 + n) /\
    2 ^ 52 <= Zpos m < 2 ^ 53 /\ 0 <= n <= 2 /\
    (Zpos m - 1) * 2 ^ n * Zpos m2 <= Zpos m1 * 2 ^ 53
    < (Zpos m + 1) * 2 ^ n * Zpos m2.
Proof.
  intros H1 H2 Ha Hb.
  assert (D1 : Zdigits2 (Zpos m1) = 53) by (apply Zdigits2_unique; [exact H1|lia]).
  assert (D2 : Zdigits2 (Zpos m2) = 53) by (apply Zdigits2_unique; [exact H2|lia]).
  unfold div, prec, emax, SFdiv, SFdiv_core_binary. rewrite D1, D2.
  rewrite fexp_normal by lia.
  replace (Z.min (53 + - a - (53 + - b) - 53) (- a - - b)) with (b - a - 53) by lia.
  replace (- a - - b - (b - a - 53)) with 53 by lia.
  cbv iota beta. rewrite Z.shiftl_mul_pow2 by lia.
  pose proof (Z_div_mod (Zpos m1 * 2 ^ 53) (Zpos m2) ltac:(lia)) as E.
  destruct (Z.div_eucl (Zpos m1 * 2 ^ 53) (Zpos m2)) as [q r]. destruct E as [E R].
  assert (Q1 : 2 ^ 52 <= q) by nia.
  assert (Q2 : q < 2 ^ 54).
  { change (2 ^ 54) with (2 * 2 ^ 53). nia. }
  pose proof (Zdigits2_ge q 52 ltac:(lia) Q1) as G1.
  pose proof (Zdigits2_le q 54 ltac:(lia) ltac:(lia) Q2) as G2.
  destruct (binary_round_aux_spec (xorb false false) q (b - a - 53)
              (new_location (Zpos m2) r))
    as [m [e [Er [Bm [Le1 [Le2 Hb2]]]]]]; try lia.
  exists m, (e - (b - a - 53)). rewrite Er. simpl xorb.
  split; [f_equal; lia|]. split; [exact Bm|]. split; [lia|].
  assert (P : 0 < 2 ^ (e - (b - a - 53))) by (apply Z.pow_pos_nonneg; lia).
  generalize dependent (2 ^ (e - (b - a - 53))). intros; nia.
Qed.

(** The product of a normal number of moderate exponent with 100. *)
Lemma mul_100_spec (m : positive) (e : Z) :
  2 ^ 52 <= Zpos m < 2 ^ 53 -> -200 <= e <= 200 ->
  exists (mx : positive) (n : Z),
    mul (S754_finite false m e) (of_nat 100)
    = S754_finite false mx (e - 46 + n) /\
    2 ^ 52 <= Zpos mx < 2 ^ 53 /\ 0 <= n /\
    (Zpos mx - 1) * 2 ^ n <= Zpos m * (100 * 2 ^ 46)
    < (Zpos mx + 1) * 2 ^ n.
Proof.
  intros Hm He.
  change (of_nat 100) with (S754_finite false 7036874417766400 (-46)).
  unfold mul, prec, emax, SFmul.
  assert (Q1 : 2 ^ 104 <= Zpos (m * 7036874417766400) < 2 ^ 106).
  { rewrite Pos2Z.inj_mul.
    change (2 ^ 104) with (2 ^ 52 * 2 ^ 52).
    change (2 ^ 106) with (2 ^ 53 * 2 ^ 53).
    change (2 ^ 52) with 4503599627370496 in *.
    change (2 ^ 53) with 9007199254740992 in *. lia. }
  pose proof (Zdigits2_ge _ 104 ltac:(lia) (proj1 Q1)) as G1.
  pose proof (Zdigits2_le (Zpos (m * 7036874417766400)) 106
                ltac:(lia) ltac:(lia) (proj2 Q1)) as G2.
  destruct (binary_round_aux_spec (xorb false false)
              (Zpos (m * 7036874417766400)) (e + -46) loc_Exact)
    as [mx [ex [Er [Bm [Le1 [Le2 Hb2]]]]]]; try lia.
  exists mx, (ex - (e + -46)). rewrite Er. simpl xorb.
  split; [f_equal; lia|]. split; [exact Bm|]. split; [lia|].
  rewrite Pos2Z.inj_mul in Hb2.
  change (Z.pos 7036874417766400) with (100 * 2 ^ 46) in Hb2. exact Hb2.
Qed.

(** The arithmetic of the two roundings: with [q] within one unit in the
    last place of [c/t] and [x] within one of [100 q], twice [t x] is
    within one of [200 c].  Everything is scaled to integers: [NB] and
    [Nx] are the units in the last place, [A * 2^99] the common scale. *)
Lemma two_roundings (c t mq mx A NB Nx : Z) :
  1 <= c <= t -> t < 2 ^ 32 ->
  2 ^ 52 <= mq < 2 ^ 53 -> 2 ^ 52 <= mx < 2 ^ 53 ->
  0 < A -> 0 < NB -> 0 < Nx ->
  (mq - 1) * NB * t <= c * A * 2 ^ 53 < (mq + 1) * NB * t ->
  (mx - 1) * Nx <= mq * (100 * 2 ^ 46) < (mx + 1) * Nx ->
  200 * c * (A * 2 ^ 99) - A * 2 ^ 99 < 2 * t * (mx * (Nx * NB))
  < 200 * c * (A * 2 ^ 99) + A * 2 ^ 99.
Proof.
  intros Hc Ht Hq Hx HA HNB HNx [D1 D2] [M1 M2].
  change (2 ^ 32) with 4294967296 in *.
  change (2 ^ 52) with 4503599627370496 in *.
  change (2 ^ 53) with 9007199254740992 in *.
  change (2 ^ 46) with 70368744177664 in *.
  change (2 ^ 99) with 633825300114114700748351602688 in *.
  assert (B1 : NB <= 4 * A).
  { assert (4503599627370495 * (NB * t) <= 9007199254740992 * A * t) by nia.
    assert (4503599627370495 * NB <= 9007199254740992 * A) by nia. lia. }
  assert (B2 : Nx <= 300 * 70368744177664).
  { assert (4503599627370495 * Nx <= (mx - 1) * Nx)
      by (apply Z.mul_le_mono_nonneg_r; lia). lia. }
  assert (B3 : Nx * NB <= 300 * 70368744177664 * (4 * A)).
  { apply Z.mul_le_mono_nonneg; lia. }
  assert (E1 : 0 < NB * t) by nia.
  assert (U1 : mx * Nx * (NB * t) <= (mq * (100 * 70368744177664) + Nx) * (NB * t)).
  { apply Z.mul_le_mono_nonneg_r; lia. }
  assert (L1 : (mq * (100 * 70368744177664) - Nx) * (NB * t) <= mx * Nx * (NB * t)).
  { apply Z.mul_le_mono_nonneg_r; lia. }
  assert (T1 : NB * t <= 4 * A * 4294967296) by nia.
  assert (T2 : Nx * NB * t <= 300 * 70368744177664 * (4 * A) * 4294967296).
  { apply Z.mul_le_mono_nonneg; try lia; apply Z.mul_nonneg_nonneg; lia. }
  split; nia.
Qed.

Lemma toString_of_Z_small (r : Z) :
  0 < r <= 100 -> toString (of_Z r) = decimal r.
Proof.
  intros Hr.
  assert (H : forallb (fun z => String.eqb (toString (of_Z z)) (decimal z))
                (map Z.of_nat (seq 1 100)) = true) by (vm_compute; reflexivity).
  rewrite forallb_forall in H. apply String.eqb_eq, H.
  apply in_map_iff. exists (Z.to_nat r). split; [lia|]. apply in_seq. lia.
Qed.

(** What the board shows for [c] completed of [t], both at least 1: an
    integer [D] with [2 t D] within [t] of [200 c]. *)
Lemma rounded_percent_nearest (c t : Z) :
  1 <= c <= t -> t < 2 ^ 32 ->
  exists D : Z,
    toString (Math_round (clamp (mul (div (of_Z c) (of_Z t)) (of_nat 100))
                                (of_nat 0) (of_nat 100)))
    = decimal D /\
    200 * c - t <= 2 * t * D <= 200 * c + t.
Proof.
  intros Hc Ht.
  assert (Ht53 : 2 ^ 32 < 2 ^ 53) by (simpl; lia).
  destruct (of_Z_exact c ltac:(lia)) as [mc [a [Ec [Bc [Ha Mc]]]]].
  destruct (of_Z_exact t ltac:(lia)) as [mt [b [Et [Bt [Hb Mt]]]]].
  rewrite Ec, Et.
  destruct (div_spec mc mt a b Bc Bt Ha Hb) as [mq [nq [Fq [Bq [Hnq Dq]]]]].
  rewrite Fq.
  destruct (mul_100_spec mq (b - a - 53 + nq) Bq ltac:(lia))
    as [mx [nx [Fx [Bx [Hnx Dx]]]]].
  rewrite Fx.
  set (ex := b - a - 53 + nq - 46 + nx).
  set (A := 2 ^ a). set (NB := 2 ^ nq * 2 ^ b). set (Nx := 2 ^ nx).
  assert (PA : 0 < A) by (apply Z.pow_pos_nonneg; lia).
  assert (PNB : 0 < NB)
    by (apply Z.mul_pos_pos; apply Z.pow_pos_nonneg; lia).
  assert (PNx : 0 < Nx) by (apply Z.pow_pos_nonneg; lia).
  assert (Core : 200 * c * (A * 2 ^ 99) - A * 2 ^ 99
                 < 2 * t * (Zpos mx * (Nx * NB))
                 < 200 * c * (A * 2 ^ 99) + A * 2 ^ 99).
  { apply (two_roundings c t (Zpos mq) (Zpos mx) A NB Nx); try assumption.
    rewrite Mc, Mt in Dq. unfold NB, A.
    replace ((Z.pos mq - 1) * (2 ^ nq * 2 ^ b) * t)
      with ((Z.pos mq - 1) * 2 ^ nq * (t * 2 ^ b)) by ring.
    replace ((Z.pos mq + 1) * (2 ^ nq * 2 ^ b) * t)
      with ((Z.pos mq + 1) * 2 ^ nq * (t * 2 ^ b)) by ring.
    exact Dq. }
  set (W := A * 2 ^ 99) in *. set (V := Nx * NB) in *.
  assert (PV : 0 < V) by (unfold V; apply Z.mul_pos_pos; assumption).
  assert (PW : 0 < W) by (unfold W; apply Z.mul_pos_pos; [assumption|simpl; lia]).
  assert (EV : V = 2 ^ (nx + nq + b)).
  { unfold V, Nx, NB. rewrite !Z.pow_add_r by lia. ring. }
  assert (EW : W = 2 ^ (a + 99)).
  { unfold W, A. rewrite Z.pow_add_r by lia. reflexivity. }
  assert (Hex : ex < 0).
  { destruct (Z_lt_ge_dec ex 0) as [L|G]; [exact L|exfalso].
    assert (W <= V).
    { rewrite EV, EW. apply Z.pow_le_mono_r; unfold ex in G; lia. }
    change (2 ^ 52) with 4503599627370496 in *.
    change (2 ^ 32) with 4294967296 in *.
    assert (2 * t * (4503599627370496 * W) <= 2 * t * (Zpos mx * V)).
    { apply Z.mul_le_mono_nonneg_l; [lia|].
      apply Z.mul_le_mono_nonneg; lia. }
    nia. }
  set (P := 2 ^ (- ex)).
  assert (PP : 0 < P) by (apply Z.pow_pos_nonneg; lia).
  assert (EP : P * V = W).
  { unfold P. rewrite EV, EW, <- Z.pow_add_r by (unfold ex; lia).
    f_equal. unfold ex. lia. }
  set (hundred := S754_finite false 7036874417766400 (-46)).
  change (of_nat 100) with hundred. change (of_nat 0) with (S754_zero false).
  replace (b - a - 53 + nq - 46 + nx) with ex by reflexivity.
  unfold clamp.
  assert (Emax : Math_max (S754_zero false) (S754_finite false mx ex)
                 = S754_finite false mx ex) by reflexivity.
  rewrite Emax.
  destruct (SFltb hundred (S754_finite false mx ex)) eqn:Lt100.
  - (* the product is above 100 *)
    assert (Emin : Math_min hundred (S754_finite false mx ex) = hundred).
    { unfold Math_min. simpl isNaN. simpl orb. now rewrite Lt100. }
    rewrite Emin. exists 100. split; [vm_compute; reflexivity|].
    assert (Hct : c = t).
    { unfold SFltb, hundred, SFcompare in Lt100.
      destruct (Z.compare_spec (-46) ex) as [E|L|G]; try discriminate.
      - destruct (Pos.compare_cont Eq 7036874417766400 mx) eqn:Cm;
          try discriminate.
        change (7036874417766400 < mx)%positive in Cm.
        assert (M : 7036874417766400 < Zpos mx) by lia.
        assert (P = 2 ^ 46) by (unfold P; rewrite <- E; reflexivity).
        change (2 ^ 46) with 70368744177664 in *.
        assert (2 * t * (7036874417766401 * V) <= 2 * t * (Zpos mx * V)).
        { apply Z.mul_le_mono_nonneg_l; [lia|].
          apply Z.mul_le_mono_nonneg_r; lia. }
        nia.
      - exfalso.
        assert (P * 2 <= 2 ^ 46).
        { unfold P. change 2 with (2 ^ 1) at 2.
          rewrite <- Z.pow_add_r by lia. apply Z.pow_le_mono_r; lia. }
        change (2 ^ 46) with 70368744177664 in *.
        change (2 ^ 52) with 4503599627370496 in *.
        assert (2 * t * (4503599627370496 * V) <= 2 * t * (Zpos mx * V)).
        { apply Z.mul_le_mono_nonneg_l; [lia|].
          apply Z.mul_le_mono_nonneg_r; lia. }
        nia. }
    lia.
  - assert (Emin : Math_min hundred (S754_finite false mx ex)
                   = S754_finite false mx ex).
    { unfold Math_min. simpl isNaN. simpl orb. rewrite Lt100.
      now destruct (SFltb (S754_finite false mx ex) hundred). }
    rewrite Emin. unfold Math_round.
    assert (Le : (0 <=? ex) = false) by (apply Z.leb_gt; exact Hex).
    rewrite Le. cbv zeta.
    replace (2 ^ (1 - ex)) with (2 * P)
      by (unfold P; change 2 with (2 ^ 1) at 1;
          rewrite <- Z.pow_add_r by lia; f_equal; lia).
    fold P. set (D := (2 * Z.pos mx + P) / (2 * P)).
    assert (HD : 2 * P * D <= 2 * Zpos mx + P < 2 * P * (D + 1)).
    { unfold D. pose proof (Z.mul_div_le (2 * Zpos mx + P) (2 * P) ltac:(lia)).
      pose proof (Z.mul_succ_div_gt (2 * Zpos mx + P) (2 * P) ltac:(lia)).
      unfold Z.succ in *. lia. }
    assert (HD0 : 0 <= D) by (apply Z.div_pos; lia).
    assert (Hres : 200 * c - t <= 2 * t * D <= 200 * c + t).
    { assert (F1 : 2 * P * D * (t * V) <= (2 * Zpos mx + P) * (t * V))
        by (apply Z.mul_le_mono_nonneg_r; nia).
      assert (F2 : (2 * Zpos mx + P) * (t * V) < 2 * P * (D + 1) * (t * V))
        by (apply Z.mul_lt_mono_pos_r; nia).
      assert (G1 : 2 * P * D * (t * V) = 2 * t * D * W) by (rewrite <- EP; ring).
      assert (G2 : (2 * Zpos mx + P) * (t * V)
                   = 2 * t * (Zpos mx * V) + t * W) by (rewrite <- EP; ring).
      assert (G3 : 2 * P * (D + 1) * (t * V) = 2 * t * D * W + 2 * t * W)
        by (rewrite <- EP; ring).
      rewrite G1, G2 in F1. rewrite G2, G3 in F2.
      destruct Core as [C1 C2].
      clear - F1 F2 C1 C2 PW. split.
      - assert ((200 * c - t - 1) * W < 2 * t * D * W).
        { replace ((200 * c - t - 1) * W) with (200 * c * W - t * W - W) by ring.
          lia. }
        assert (200 * c - t - 1 < 2 * t * D)
          by (apply (Z.mul_lt_mono_pos_r W); assumption). lia.
      - assert (2 * t * D * W < (200 * c + t + 1) * W).
        { replace ((200 * c + t + 1) * W) with (200 * c * W + t * W + W) by ring.
          lia. }
        assert (2 * t * D < 200 * c + t + 1)
          by (apply (Z.mul_lt_mono_pos_r W); assumption). lia. }
    exists D. split; [|exact Hres].
    destruct (D =? 0) eqn:E0.
    + apply Z.eqb_eq in E0. rewrite E0. reflexivity.
    + apply Z.eqb_neq in E0. apply toString_of_Z_small.
      assert (H201 : t * (2 * D) <= t * 201) by lia.
      apply Z.mul_le_mono_pos_l in H201; lia.
Qed.

Lemma rounded_percent_zero (t : Z) :
  1 <= t -> t < 2 ^ 32 ->
  toString (Math_round (clamp (mul (div (of_Z 0) (of_Z t)) (of_nat 100))
                              (of_nat 0) (of_nat 100)))
  = decimal 0.
Proof.
  intros H1 H2.
  assert (H53 : 2 ^ 32 < 2 ^ 53) by (simpl; lia).
  destruct (of_Z_exact t ltac:(lia)) as [mt [b [Et _]]].
  rewrite Et. reflexivity.
Qed.

(** What the board shows for [c] completed of [t]: an integer [D] with
    [2 t D] within [t] of [200 c], that is, an integer nearest to
    [100 c / t]. *)
Lemma rounded_percent (c t : Z) :
  0 <= c <= t -> 1 <= t -> t < 2 ^ 32 ->
  exists D : Z,
    toString (Math_round (clamp (mul (div (of_Z c) (of_Z t)) (of_nat 100))
                                (of_nat 0) (of_nat 100)))
    = decimal D /\
    200 * c - t <= 2 * t * D <= 200 * c + t.
Proof.
  intros Hc H1 H2. destruct (Z.eq_dec c 0) as [->|Hn].
  - exists 0. split; [now apply rounded_percent_zero | lia].
  - apply rounded_percent_nearest; lia.
Qed.

(** An integer within half of a quotient is the quotient rounded half up,
    or the integer below it when the quotient is exactly half-way. *)
Lemma nearest_is_round_or_tie (c t D : Z) :
  0 < t -> 200 * c - t <= 2 * t * D <= 200 * c + t ->
  let R := (200 * c + t) / (2 * t) in
  D = R \/ (200 * c + t = 2 * t * R /\ D = R - 1).
Proof.
  intros Ht [HL HU] R.
  assert (HR : 2 * t * R <= 200 * c + t < 2 * t * (R + 1)).
  { unfold R. pose proof (Z.mul_div_le (200 * c + t) (2 * t) ltac:(lia)).
    pose proof (Z.mul_succ_div_gt (200 * c + t) (2 * t) ltac:(lia)).
    unfold Z.succ in *. lia. }
  assert (D1 : D < R + 1).
  { apply (Z.mul_lt_mono_pos_l (2 * t)); lia. }
  assert (D2 : R - 2 < D).
  { apply (Z.mul_lt_mono_pos_l (2 * t)); lia. }
  destruct (Z.eq_dec D R) as [E|N]; [now left | right].
  assert (E : D = R - 1) by lia. split; [|exact E]. subst D. lia.
Qed.

Close Scope Z_scope.

(** C5, as stated, fails.  With 23 tasks completed of 40 the quotient is
    57.5 exactly, so round(clamp(completed/total*100, 0, 100)) is 58; the
    board divides and multiplies in binary64, gets 57.49999999999999 and
    shows 57%. *)
Lemma progress_not_exact_round :
  let ts := repeat (mkTask (IdNum 1) (lit "done") true) 23
            ++ repeat (mkTask (IdNum 2) (lit "open") false) 17 in
  completedCount ts = 23 /\ totalCount ts = 40 /\
  Exact.exact_percent 23 40 = 58%Z /\
  progressText ts = "57%" /\
  progressText ts <> (decimal (Exact.exact_percent 23 40) ++ "%")%string.
Proof.
  cbn zeta. repeat split; try (vm_compute; reflexivity).
  vm_compute. discriminate.
Qed.

(** C5, amended. For every task list the completed count is at most the
    total count, and for the empty list the percentage is 0, displayed as
    0%.  For every non-empty list of fewer than 2^32 tasks (the bound of a
    JavaScript array) the displayed percentage is an integer between 0 and
    100 within a half of completed/total*100: it is
    round(clamp(completed/total*100, 0, 100)) of the exact quotient, half
    rounded up, except that when the quotient lies exactly half-way between
    two integers the binary64 computation may give the integer below. *)
Theorem progress_figures (ts : list Task) :
  let c := completedCount ts in
  let t := totalCount ts in
  c <= t /\
  (t = 0 -> percent ts = of_nat 0 /\ progressText ts = "0%") /\
  (0 < t -> (Z.of_nat t < 2 ^ 32)%Z ->
   exists D : Z,
     progressText ts = (decimal D ++ "%")%string /\
     (0 <= D <= 100)%Z /\
     (200 * Z.of_nat c - Z.of_nat t <= 2 * Z.of_nat t * D
      <= 200 * Z.of_nat c + Z.of_nat t)%Z /\
     (D = Exact.exact_percent c t \/
      Exact.half_way c t = true /\ D = (Exact.exact_percent c t - 1)%Z)).
Proof.
  cbn zeta. pose proof (completedCount_le_totalCount ts) as Hle.
  split; [exact Hle|]. split.
  - intros Hz. unfold progressText, formatPercent, percent.
    rewrite Hz. split; reflexivity.
  - intros Hpos Hlt.
    destruct (rounded_percent (Z.of_nat (completedCount ts))
                (Z.of_nat (totalCount ts))) as [D [ED HD]]; try lia.
    exists D. split; [|split; [|split; [exact HD|]]].
    + unfold progressText, formatPercent, percent.
      assert (E0 : (totalCount ts =? 0) = false) by (apply Nat.eqb_neq; lia).
      rewrite E0.
      change (of_nat (completedCount ts))
        with (of_Z (Z.of_nat (completedCount ts))).
      change (of_nat (totalCount ts)) with (of_Z (Z.of_nat (totalCount ts))).
      now rewrite ED.
    + destruct HD as [HL HU]. split.
      * assert (H : (Z.of_nat (totalCount ts) * (-1)
                     < Z.of_nat (totalCount ts) * (2 * D + 1))%Z) by lia.
        apply Z.mul_lt_mono_pos_l in H; lia.
      * assert (H : (Z.of_nat (totalCount ts) * (2 * D)
                     <= Z.of_nat (totalCount ts) * 201)%Z) by lia.
        apply Z.mul_le_mono_pos_l in H; lia.
    + rewrite (ExactFacts.exact_percent_eq _ _ Hpos Hle).
      destruct (nearest_is_round_or_tie (Z.of_nat (completedCount ts))
                  (Z.of_nat (totalCount ts)) D ltac:(lia) HD) as [E|[E1 E2]];
        [now left | right]. split; [|exact E2].
      exact (ExactFacts.half_way_intro _ _ _ Hpos E1).
Qed.

Lemma progress_figures_witness :
  let ts := repeat (mkTask (IdNum 1) (lit "done") true) 23
            ++ repeat (mkTask (IdNum 2) (lit "open") false) 17 in
  (0 < totalCount ts) /\ (Z.of_nat (totalCount ts) < 2 ^ 32)%Z /\
  exists D : Z,
    progressText ts = (decimal D ++ "%")%string /\
    (D = Exact.exact_percent 23 40 \/
     Exact.half_way 23 40 = true /\ D = (Exact.exact_percent 23 40 - 1)%Z).
Proof.
  cbn zeta.
  assert (H0 : 0 < totalCount
                     (repeat (mkTask (IdNum 1) (lit "done") true) 23
                      ++ repeat (mkTask (IdNum 2) (lit "open") false) 17))
    by (vm_compute; lia).
  assert (H32 : (Z.of_nat (totalCount
                     (repeat (mkTask (IdNum 1) (lit "done") true) 23
                      ++ repeat (mkTask (IdNum 2) (lit "open") false) 17))
                 < 2 ^ 32)%Z) by (vm_compute; reflexivity).
  split; [exact H0|]. split; [exact H32|].
  destruct (proj2 (proj2 (progress_figures
              (repeat (mkTask (IdNum 1) (lit "done") true) 23
               ++ repeat (mkTask (IdNum 2) (lit "open") false) 17))) H0 H32)
    as [D [E [_ [_ T]]]].
  exists D. split; [exact E | exact T].
Defined.

(** ** Add: validation *)

(** C6. When the trimmed title has fewer than 3 characters, the add action
    only sets the validation message: it issues no call and changes nothing
    else, whatever the network would have answered.  When it has at least 3,
    the add action calls [createTask] with the trimmed title. *)
Theorem add_validation (st : State) :
  (List.length (trim (title st)) < 3 ->
     onAdd_start st
     = (setError "Task title must be at least 3 characters." st, None) /\
     snd (step Add st) = [] /\
     (forall o, onAdd o st
                = setError "Task title must be at least 3 characters." st)) /\
  (3 <= List.length (trim (title st)) ->
     snd (onAdd_start st) = Some (Api.CreateTask (trim (title st))) /\
     snd (step Add st) = [Api.CreateTask (trim (title st))]).
Proof.
  unfold onAdd, step, onAdd_start. split; intros H.
  - apply Nat.ltb_lt in H. rewrite H. repeat split.
  - apply Nat.ltb_ge in H. rewrite H. split; reflexivity.
Qed.

Lemma add_validation_witness :
  snd (step Add (setTitle (lit "  ab ") initial)) = [] /\
  snd (step Add (setTitle (lit " abc ") initial)) = [Api.CreateTask (lit "abc")].
Proof.
  split.
  - apply (proj1 (add_validation (setTitle (lit "  ab ") initial))).
    vm_compute. lia.
  - apply (proj2 (add_validation (setTitle (lit " abc ") initial))).
    vm_compute. lia.
Defined.

(** ** Focus mode *)

(** C7. With focus mode on, the rendered list is the subsequence of the
    tasks that are not completed, each of them and in their order; with
    focus mode off it is the task list itself.  Switching focus mode
    changes no task and issues no call. *)
Theorem focus_mode_view (st : State) (checked : bool) :
  let ts := tasks st in
  visibleTasks ts true = filter (fun t => negb (completed t)) ts /\
  Subseq (visibleTasks ts true) ts /\
  (forall t, In t (visibleTasks ts true) <-> In t ts /\ completed t = false) /\
  List.length (visibleTasks ts true) + completedCount ts = totalCount ts /\
  visibleTasks ts false = ts /\
  step (FocusModeChange checked) st = (setFocusMode checked st, []) /\
  tasks (setFocusMode checked st) = ts /\
  focusMode (setFocusMode checked st) = checked.
Proof.
  cbn zeta. unfold visibleTasks. simpl. repeat split.
  - apply filter_Subseq.
  - apply filter_In in H. tauto.
  - apply filter_In in H. now apply negb_true_iff.
  - intros [Hin Hc]. apply filter_In. now rewrite Hc.
  - unfold completedCount, totalCount. rewrite Nat.add_comm.
    apply (filter_length_split (fun t => completed t)).
Qed.

(** ** Load *)

(** C8. The load operation sets the loading flag on entry and clears it on
    exit, whether the call fails or succeeds; when the call fails the task
    list is what it was (the empty list, from the initial state) and the
    message asks for a refresh. *)
Theorem load_failure_frame (st mid : State) (data : list Task) :
  loading (fst (load_start st)) = true /\
  tasks (fst (load_start st)) = tasks st /\
  snd (load_start st) = Api.ListTasks /\
  tasks (load_settle Rejected mid) = tasks mid /\
  error (load_settle Rejected mid) = "Could not load tasks. Please refresh." /\
  loading (load_settle Rejected mid) = false /\
  loading (load_settle (Resolved data) mid) = false /\
  tasks (load Rejected st) = tasks st /\
  tasks (load Rejected initial) = [].
Proof. repeat split. Qed.

(** ** The REST client *)

(** C3, as stated, fails: against a backend answering with the body
    [{ task: Task }] of the REST table, [createTask] and
    [patchTaskCompletion] resolve with that body, an object that is not a
    Task (it has no [id], [title] or [completed]) but holds the Task under
    its [task] property. *)
Lemma client_resolves_with_wrapper :
  let t := mkTask (IdNum 2) (lit "Walk dog") false in
  let api := envelope_backend t in
  Api.createTask api (lit "Walk dog") = Resolved (Api.envelope_json t) /\
  Api.createTask api (lit "Walk dog") <> Resolved (Api.task_json t) /\
  Api.patchTaskCompletion api (IdNum 2) false = Resolved (Api.envelope_json t) /\
  Api.patchTaskCompletion api (IdNum 2) false <> Resolved (Api.task_json t) /\
  Api.is_task (Api.envelope_json t) = false /\
  Api.is_task (Api.task_json t) = true.
Proof.
  cbn zeta. repeat split; try reflexivity; discriminate.
Qed.

(** C3, amended. [createTask] and [patchTaskCompletion] resolve with the
    body of the response, unchanged, and reject when the request fails.
    With the body [{ task: Task }] of the REST table the value they resolve
    with is that wrapper: the Task is its [task] property, which is what
    the board reads as [res.task]. *)
Theorem client_resolves_with_body (api : Api.Http) (title : jsstring)
    (i : Id) (c : bool) (body : Api.Json) (t : Task) :
  let post := Api.mkRequest Api.POST Api.tasks_url
                (Some (Api.JObj [("title", Api.JStr title)])) in
  let patch := Api.mkRequest Api.PATCH (Api.task_url i)
                 (Some (Api.JObj [("completed", Api.JBool c)])) in
  (api post = Resolved (Api.mkResponse body) ->
     Api.createTask api title = Resolved body) /\
  (api post = Rejected -> Api.createTask api title = Rejected) /\
  (api patch = Resolved (Api.mkResponse body) ->
     Api.patchTaskCompletion api i c = Resolved body) /\
  (api patch = Rejected -> Api.patchTaskCompletion api i c = Rejected) /\
  Api.prop (Api.envelope_json t) "task" = Some (Api.task_json t) /\
  Api.is_task (Api.task_json t) = true /\
  Api.is_task (Api.envelope_json t) = false.
Proof.
  cbn zeta. unfold Api.createTask, Api.patchTaskCompletion.
  repeat split; try (intros ->; reflexivity).
  unfold Api.is_task, Api.task_json. simpl. now destruct (id t).
Qed.

Lemma client_resolves_with_body_witness :
  let t := mkTask (IdNum 2) (lit "Walk dog") false in
  Api.createTask (envelope_backend t) (lit "Walk dog")
  = Resolved (Api.envelope_json t) /\
  Api.patchTaskCompletion (envelope_backend t) (IdNum 2) true
  = Resolved (Api.envelope_json t).
Proof.
  cbn zeta. split.
  - apply (proj1 (client_resolves_with_body
                    (envelope_backend (mkTask (IdNum 2) (lit "Walk dog") false))
                    (lit "Walk dog") (IdNum 2) true _
                    (mkTask (IdNum 2) (lit "Walk dog") false))).
    reflexivity.
  - apply (proj1 (proj2 (proj2 (client_resolves_with_body
                    (envelope_backend (mkTask (IdNum 2) (lit "Walk dog") false))
                    (lit "Walk dog") (IdNum 2) true _
                    (mkTask (IdNum 2) (lit "Walk dog") false))))).
    reflexivity.
Defined.

(** ** The save indicator and its timer *)

Lemma setSavedSoon_window st :
  timers_ok st ->
  saveState (setSavedSoon st) = Saved /\
  timeouts (setSavedSoon st)
  = [mkTimeout (nextHandle st) (clock st + 1200) SaveStateToIdle] /\
  taskBoardSaveTimeout (setSavedSoon st) = Some (nextHandle st) /\
  clock (setSavedSoon st) = clock st.
Proof.
  unfold timers_ok, setSavedSoon. intros H.
  destruct (timeouts st) as [|t [|t' l]] eqn:E; [| |contradiction].
  - destruct (taskBoardSaveTimeout st) eqn:G; simpl; rewrite G; simpl;
      rewrite ?E; repeat split.
  - simpl. rewrite H. simpl. rewrite E. simpl.
    rewrite Nat.eqb_refl. repeat split.
Qed.

Lemma fold_run_window fired st :
  let st' := fold_left (fun s t => run (callback t) s) fired st in
  timeouts st' = timeouts st /\
  taskBoardSaveTimeout st' = taskBoardSaveTimeout st /\
  saveState st' = match fired with [] => saveState st | _ => Idle end.
Proof.
  revert st. induction fired as [|t fired IH]; intros st; simpl.
  - repeat split.
  - destruct (IH (run (callback t) st)) as [Ht [Hg Hs]].
    rewrite Ht, Hg, Hs. destruct (callback t). simpl.
    repeat split. now destruct fired.
Qed.

(** With nothing pending, time leaves the indicator as it is. *)
Lemma elapse_nothing_pending dt st :
  timeouts st = [] ->
  saveState (elapse dt st) = saveState st /\ timeouts (elapse dt st) = [].
Proof.
  intros E. unfold elapse. rewrite E. simpl. split; reflexivity.
Qed.

(** With the revert pending, time leaves the indicator as it is until the
    revert is due, and then makes it idle. *)
Lemma elapse_pending_revert dt st h d :
  timeouts st = [mkTimeout h d SaveStateToIdle] ->
  (clock st + dt < d ->
     saveState (elapse dt st) = saveState st /\
     timeouts (elapse dt st) = timeouts st) /\
  (d <= clock st + dt ->
     saveState (elapse dt st) = Idle /\ timeouts (elapse dt st) = []).
Proof.
  intros E. unfold elapse. rewrite E. simpl. split; intros H.
  - apply Nat.leb_gt in H. rewrite H. simpl. split; reflexivity.
  - apply Nat.leb_le in H. rewrite H. simpl. split; reflexivity.
Qed.

Lemma elapse_timers_ok dt st : timers_ok st -> timers_ok (elapse dt st).
Proof.
  unfold timers_ok, elapse. intros H.
  match goal with
  | |- context [fold_left ?f ?fired ?base] =>
      destruct (fold_run_window fired base) as [Ht [Hg _]]
  end.
  cbn zeta in Ht, Hg. rewrite Ht, Hg. simpl.
  destruct (timeouts st) as [|t [|t' l]]; [exact I| |contradiction].
  simpl. destruct (due t <=? clock st + dt); simpl; [exact I | exact H].
Qed.

Lemma setSavedSoon_timers_ok st : timers_ok st -> timers_ok (setSavedSoon st).
Proof.
  intros H. destruct (setSavedSoon_window st H) as [_ [Ht [Hg _]]].
  unfold timers_ok. now rewrite Ht, Hg.
Qed.

(** The timer discipline holds in every state the board can reach. *)
Lemma step_timers_ok e st : timers_ok st -> timers_ok (fst (step e st)).
Proof.
  intros H. destruct e as [ |o| |o|task|task o|task|prev o|b|v|key|dt]; simpl.
  - exact H.
  - destruct o; exact H.
  - unfold onAdd_start.
    destruct (List.length (trim (title st)) <? 3); exact H.
  - destruct o as [res|]; [|exact H].
    apply (setSavedSoon_timers_ok
             (setTitle [] (setTasks (fun prev => prev ++ [task res]) st))).
    exact H.
  - exact H.
  - destruct o as [res|]; [|exact H].
    apply (setSavedSoon_timers_ok (setTasks (toggle_reconcile task res) st)).
    exact H.
  - exact H.
  - destruct o as [r|]; [|exact H].
    now apply setSavedSoon_timers_ok.
  - exact H.
  - exact H.
  - unfold onKeyDown, onAdd_start.
    destruct (String.eqb key "Enter"), (List.length (trim (title st)) <? 3),
      (String.eqb key "Escape"); exact H.
  - now apply elapse_timers_ok.
Qed.

Lemma steps_timers_ok es st : timers_ok st -> timers_ok (fst (steps es st)).
Proof.
  revert st. induction es as [|e es IH]; intros st H; simpl; [exact H|].
  pose proof (step_timers_ok e st H) as H1.
  destruct (step e st) as [st1 cs1]. simpl in H1.
  specialize (IH st1 H1). destruct (steps es st1) as [st2 cs2]. exact IH.
Qed.

Lemma reachable_timers_ok es : timers_ok (fst (steps es initial)).
Proof. apply steps_timers_ok. exact I. Qed.

(** After a success the indicator shows "saved" for the dwell and "idle"
    from then on, when nothing else happens. *)
Lemma saved_dwell st h dt :
  saveState st = Saved ->
  timeouts st = [mkTimeout h (clock st + 1200) SaveStateToIdle] ->
  (dt < 1200 -> saveState (elapse dt st) = Saved) /\
  (1200 <= dt -> saveState (elapse dt st) = Idle /\ timeouts (elapse dt st) = []).
Proof.
  intros Hs Ht.
  destruct (elapse_pending_revert dt st h (clock st + 1200) Ht) as [Hlt Hge].
  split; intros H.
  - rewrite <- Hs. apply Hlt. lia.
  - apply Hge. lia.
Qed.

Lemma success_settles st task prev res b st' :
  timers_ok st ->
  In st' [onAdd_settle (Resolved res) st;
          onToggle_settle task (Resolved res) st;
          onDelete_settle prev (Resolved b) st] ->
  saveState st' = Saved /\
  timeouts st' = [mkTimeout (nextHandle st) (clock st + 1200) SaveStateToIdle] /\
  clock st' = clock st.
Proof.
  intros H [E|[E|[E|[]]]]; subst st'.
  - destruct (setSavedSoon_window
                (setTitle [] (setTasks (fun p => p ++ [Board.task res]) st)) H)
      as [Hs [Ht [_ Hc]]].
    simpl in *. now rewrite Hs, Ht, Hc.
  - destruct (setSavedSoon_window (setTasks (toggle_reconcile task res) st) H)
      as [Hs [Ht [_ Hc]]].
    simpl in *. now rewrite Hs, Ht, Hc.
  - destruct (setSavedSoon_window st H) as [Hs [Ht [_ Hc]]].
    simpl in *. now rewrite Hs, Ht, Hc.
Qed.

(** C4, as stated, fails.  A task is toggled with success at time 0, so
    the revert to idle is due at 1200.  At 500 a delete starts: the status
    is "saving" and the revert is still pending; at 1200 it fires and the
    status is "idle" although the delete has not settled.  If the delete
    fails at 500 instead, the status is "error", and the same revert makes
    it "idle" at 1200 without any new action. *)
Lemma save_indicator_stale_revert :
  let t := mkTask (IdNum 1) (lit "Buy milk") false in
  let st0 := load (Resolved [t]) initial in
  let st1 := onToggle t (Resolved (mkEnvelope (with_completed t true))) st0 in
  let st2 := fst (step (Delete t) (elapse 500 st1)) in
  let st3 := onDelete_settle (tasks (elapse 500 st1)) Rejected st2 in
  saveState st1 = Saved /\
  saveState st2 = Saving /\
  timeouts st2 = [mkTimeout 1 1200 SaveStateToIdle] /\
  saveState (elapse 700 st2) = Idle /\
  saveState st3 = Error /\
  saveState (elapse 700 st3) = Idle.
Proof. cbn zeta. repeat split. Qed.

(** C4, amended. Toggle, delete and an add that passes validation set the
    status to "saving" at once.  When the call succeeds the status is
    "saved" and the success itself replaces whatever revert was pending by
    one due after the dwell of 1200 ms: with nothing else happening the
    status is "saved" before that and "idle" from then on, with nothing
    left pending.  When the call fails the status is "error", and it stays
    "error" as time passes provided no revert is pending. *)
Theorem save_indicator (st : State) (task : Task) (prev : list Task)
    (res : TaskEnvelope) (b : bool) (dt : nat) :
  timers_ok st ->
  (saveState (fst (onToggle_start task st)) = Saving /\
   saveState (fst (fst (onDelete_start task st))) = Saving /\
   (3 <= List.length (trim (title st)) ->
      saveState (fst (onAdd_start st)) = Saving)) /\
  (forall st',
     In st' [onAdd_settle (Resolved res) st;
             onToggle_settle task (Resolved res) st;
             onDelete_settle prev (Resolved b) st] ->
     saveState st' = Saved /\
     timeouts st'
     = [mkTimeout (nextHandle st) (clock st + 1200) SaveStateToIdle] /\
     (dt < 1200 -> saveState (elapse dt st') = Saved) /\
     (1200 <= dt ->
        saveState (elapse dt st') = Idle /\ timeouts (elapse dt st') = [])) /\
  (forall st',
     In st' [onAdd_settle Rejected st;
             onToggle_settle task Rejected st;
             onDelete_settle prev Rejected st] ->
     saveState st' = Error /\
     (timeouts st = [] -> saveState (elapse dt st') = Error)).
Proof.
  intros Hok. split; [|split].
  - repeat split. intros H. unfold onAdd_start.
    apply Nat.ltb_ge in H. now rewrite H.
  - intros st' Hin.
    destruct (success_settles st task prev res b st' Hok Hin) as [Hs [Ht Hc]].
    split; [exact Hs|]. split; [exact Ht|].
    apply (saved_dwell st' (nextHandle st) dt Hs). now rewrite Hc.
  - intros st' [E|[E|[E|[]]]]; subst st'; (split; [reflexivity|]); intros Ht;
      match goal with
      | |- saveState (elapse dt ?s) = _ =>
          destruct (elapse_nothing_pending dt s Ht) as [Hs _]; now rewrite Hs
      end.
Qed.

Lemma save_indicator_witness :
  let t := mkTask (IdNum 1) (lit "Buy milk") false in
  let r := mkEnvelope (mkTask (IdNum 1) (lit "Buy milk") true) in
  let st := load (Resolved [t]) initial in
  timers_ok st /\
  saveState (fst (onToggle_start t st)) = Saving /\
  saveState (elapse 1200 (onToggle_settle t (Resolved r) st)) = Idle /\
  saveState (onToggle_settle t Rejected st) = Error.
Proof.
  cbn zeta. split; [exact I|].
  destruct (save_indicator
              (load (Resolved [mkTask (IdNum 1) (lit "Buy milk") false]) initial)
              (mkTask (IdNum 1) (lit "Buy milk") false) []
              (mkEnvelope (mkTask (IdNum 1) (lit "Buy milk") true)) true 1200 I)
    as [[H1 _] [H2 H3]].
  split; [exact H1|]. split.
  - destruct (H2 _ (or_intror (or_introl eq_refl))) as [_ [_ [_ H4]]].
    exact (proj1 (H4 (le_n 1200))).
  - exact (proj1 (H3 _ (or_intror (or_introl eq_refl)))).
Defined.

(** ** The scenario of the specification, run *)

Example scenario_add :
  let t1 := mkTask (IdNum 1) (lit "Buy milk") false in
  let t2 := mkTask (IdNum 2) (lit "Walk dog") false in
  let st := setTitle (lit "Walk dog") (load (Resolved [t1]) initial) in
  snd (step Add st) = [Api.CreateTask (lit "Walk dog")] /\
  tasks (onAdd (Resolved (mkEnvelope t2)) st) = [t1; t2] /\
  title (onAdd (Resolved (mkEnvelope t2)) st) = [] /\
  progressText (tasks (onAdd (Resolved (mkEnvelope t2)) st)) = "0%".
Proof. cbn zeta. repeat split. Qed.

Example scenario_toggle_success :
  let t1 := mkTask (IdNum 1) (lit "Buy milk") false in
  let st := load (Resolved [t1]) initial in
  let st' := onToggle t1 (Resolved (mkEnvelope (with_completed t1 true))) st in
  snd (onToggle_start t1 st) = Api.PatchTaskCompletion (IdNum 1) true /\
  progressText (tasks st') = "100%" /\ allDone (tasks st') = true /\
  saveState st' = Saved.
Proof. cbn zeta. repeat split. Qed.

Example scenario_toggle_failure :
  let t1 := mkTask (IdNum 1) (lit "Buy milk") false in
  let st := load (Resolved [t1]) initial in
  let st' := onToggle t1 Rejected st in
  tasks st' = [t1] /\ progressText (tasks st') = "0%" /\
  error st' = "Could not update task. Please try again.".
Proof. cbn zeta. repeat split. Qed.

(** The percentage is computed on binary64 numbers: 1 of 8 is 12.5 and
    shows as 13%, while 29 of 200 is 14.499999999999998 and shows as 14%. *)
Example percent_is_binary64 :
  let done := mkTask (IdNum 1) (lit "done") true in
  let open := mkTask (IdNum 2) (lit "open") false in
  progressText (done :: repeat open 7) = "13%" /\
  progressText (repeat done 29 ++ repeat open 171) = "14%".
Proof. cbn zeta. split; vm_compute; reflexivity. Qed.


(* ================================================================== *)
(** * Further properties of the code *)

Import View Terms.

(** ** [trim] *)

(** [trimStart] drops a prefix of white space and stops at the first
    character that is none. *)
Lemma trimStart_split (s : jsstring) :
  exists p, s = p ++ trimStart s /\ forallb isWhiteSpace p = true /\
            (forall c r, trimStart s = c :: r -> isWhiteSpace c = false).
Proof.
  induction s as [|c s [p [Hs [Hp Hh]]]]; simpl.
  - exists []. repeat split. discriminate.
  - destruct (isWhiteSpace c) eqn:E.
    + exists (c :: p). simpl. rewrite E, Hp. repeat split; [congruence|exact Hh].
    + exists []. repeat split. intros c' r [= <- _]. exact E.
Qed.

Lemma trimStart_fixed (s : jsstring) :
  (forall c r, s = c :: r -> isWhiteSpace c = false) -> trimStart s = s.
Proof.
  destruct s as [|c s]; [reflexivity|]. intros H. simpl.
  now rewrite (H c s eq_refl).
Qed.

Lemma trimStart_white (p s : jsstring) :
  forallb isWhiteSpace p = true -> trimStart (p ++ s) = trimStart s.
Proof.
  induction p as [|c p IH]; simpl; [reflexivity|].
  intros H. apply andb_true_iff in H. destruct H as [Hc Hp].
  rewrite Hc. now apply IH.
Qed.

Lemma trimStart_idempotent (s : jsstring) : trimStart (trimStart s) = trimStart s.
Proof.
  destruct (trimStart_split s) as [_ [_ [_ H]]]. now apply trimStart_fixed.
Qed.

(** Reversing a string keeps it all white space or not. *)
Lemma white_rev (s : jsstring) :
  forallb isWhiteSpace s = true -> forallb isWhiteSpace (rev s) = true.
Proof.
  intros H. apply forallb_forall. intros c Hc.
  apply in_rev in Hc. revert c Hc. now apply forallb_forall.
Qed.

(** [trimEnd] drops a suffix of white space and stops at the last
    character that is none. *)
Lemma trimEnd_split (s : jsstring) :
  exists q, s = trimEnd s ++ q /\ forallb isWhiteSpace q = true /\
            (forall r c, trimEnd s = r ++ [c] -> isWhiteSpace c = false).
Proof.
  unfold trimEnd. destruct (trimStart_split (rev s)) as [p [Hs [Hp Hh]]].
  exists (rev p). repeat split.
  - rewrite <- rev_app_distr, <- Hs. symmetry. apply rev_involutive.
  - now apply white_rev.
  - intros r c H. apply (Hh c (rev r)).
    rewrite <- (rev_involutive (trimStart (rev s))), H, rev_app_distr.
    reflexivity.
Qed.

(** What [trim] returns neither starts nor ends with white space. *)
Lemma trim_ends (s : jsstring) :
  (forall c r, trim s = c :: r -> isWhiteSpace c = false) /\
  (forall r c, trim s = r ++ [c] -> isWhiteSpace c = false).
Proof.
  unfold trim. split.
  - intros c r H.
    destruct (trimStart_split s) as [_ [_ [_ Hh]]].
    destruct (trimEnd_split (trimStart s)) as [q [Hq _]].
    rewrite H in Hq. apply (Hh c (r ++ q)). exact Hq.
  - destruct (trimEnd_split (trimStart s)) as [_ [_ [_ Hl]]]. exact Hl.
Qed.

Lemma trimEnd_fixed (s : jsstring) :
  (forall r c, s = r ++ [c] -> isWhiteSpace c = false) -> trimEnd s = s.
Proof.
  intros H. unfold trimEnd. rewrite trimStart_fixed; [apply rev_involutive|].
  intros c r E. apply (H (rev r) c).
  rewrite <- (rev_involutive s), E. reflexivity.
Qed.

Lemma trim_fixed (s : jsstring) :
  (forall c r, s = c :: r -> isWhiteSpace c = false) ->
  (forall r c, s = r ++ [c] -> isWhiteSpace c = false) ->
  trim s = s.
Proof.
  intros Hh Hl. unfold trim. rewrite (trimStart_fixed s Hh).
  now apply trimEnd_fixed.
Qed.

Lemma trim_idempotent (s : jsstring) : trim (trim s) = trim s.
Proof. destruct (trim_ends s) as [Hh Hl]. now apply trim_fixed. Qed.

Lemma trim_length (s : jsstring) : List.length (trim s) <= List.length s.
Proof.
  unfold trim.
  destruct (trimStart_split s) as [p [Hs _]].
  destruct (trimEnd_split (trimStart s)) as [q [Hq _]].
  rewrite Hs at 2. rewrite Hq at 2. rewrite !length_app. lia.
Qed.

Lemma trimEnd_white (s q : jsstring) :
  forallb isWhiteSpace q = true -> trimEnd (s ++ q) = trimEnd s.
Proof.
  intros H. unfold trimEnd. rewrite rev_app_distr, trimStart_white; [reflexivity|].
  now apply white_rev.
Qed.

Lemma trimStart_all_white (s : jsstring) :
  forallb isWhiteSpace s = true -> trimStart s = [].
Proof.
  intros H. rewrite <- (app_nil_r s). now rewrite trimStart_white.
Qed.

Lemma trimStart_app (s q : jsstring) :
  trimStart s <> [] -> trimStart (s ++ q) = trimStart s ++ q.
Proof.
  induction s as [|c s IH]; simpl; [congruence|].
  destruct (isWhiteSpace c); [exact IH | reflexivity].
Qed.

(** White space around a string does not change what [trim] returns. *)
Lemma trim_padding (p s q : jsstring) :
  forallb isWhiteSpace p = true -> forallb isWhiteSpace q = true ->
  trim (p ++ s ++ q) = trim s.
Proof.
  intros Hp Hq. unfold trim. rewrite (trimStart_white p (s ++ q) Hp).
  destruct (trimStart s) as [|c r] eqn:E.
  - destruct (trimStart_split s) as [p' [Hs [Hp' _]]].
    rewrite E, app_nil_r in Hs. subst p'.
    rewrite (trimStart_white s q Hp'), (trimStart_all_white q Hq). reflexivity.
  - rewrite trimStart_app by congruence. rewrite E. now apply trimEnd_white.
Qed.

Lemma trim_all_white (s : jsstring) :
  forallb isWhiteSpace s = true -> trim s = [].
Proof. intros H. unfold trim. now rewrite (trimStart_all_white s H). Qed.

(** ** Add *)

Lemma trim_sendable (s : jsstring) :
  3 <= List.length (trim s) -> sendable (trim s).
Proof.
  intros H. destruct (trim_ends s) as [Hh Hl].
  split; [exact H|]. split; [apply trim_idempotent|]. split; assumption.
Qed.

Lemma onAdd_start_call st c :
  snd (onAdd_start st) = Some c ->
  c = Api.CreateTask (trim (title st)) /\ 3 <= List.length (trim (title st)).
Proof.
  unfold onAdd_start.
  destruct (List.length (trim (title st)) <? 3) eqn:E; simpl; [discriminate|].
  intros [= <-]. apply Nat.ltb_ge in E. now split.
Qed.

Lemma step_create_sendable e st t :
  In (Api.CreateTask t) (snd (step e st)) -> sendable t.
Proof.
  destruct e as [ |o| |o|task|task o|task|prev o|b|v|key|dt]; simpl;
    try (intros []; fail); try (intros [H|[]]; discriminate H).
  - destruct (onAdd_start st) as [st' c] eqn:E. simpl.
    destruct c as [c|]; simpl; [|intros []]. intros [H|[]]. subst c.
    destruct (onAdd_start_call st (Api.CreateTask t)) as [H1 H2];
      [now rewrite E|].
    injection H1 as ->. now apply trim_sendable.
  - unfold onKeyDown. destruct (String.eqb key "Enter").
    + destruct (onAdd_start st) as [st' c] eqn:E.
      assert (Hc : In (Api.CreateTask t) (calls_of c) -> sendable t).
      { destruct c as [c|]; simpl; [|intros []]. intros [H|[]]. subst c.
        destruct (onAdd_start_call st (Api.CreateTask t)) as [H1 H2];
          [now rewrite E|].
        injection H1 as ->. now apply trim_sendable. }
      destruct (String.eqb key "Escape"); exact Hc.
    + destruct (String.eqb key "Escape"); intros [].
Qed.

(** X3. Whatever the user does, every [createTask] the board issues carries
    a title of at least 3 code units that [trim] leaves as it is: it
    neither starts nor ends with white space. *)
Theorem created_titles_are_trimmed (es : list Event) (st : State) (t : jsstring) :
  In (Api.CreateTask t) (snd (steps es st)) -> sendable t.
Proof.
  revert st. induction es as [|e es IH]; intros st; simpl; [intros []|].
  destruct (step e st) as [st1 cs1] eqn:E1.
  destruct (steps es st1) as [st2 cs2] eqn:E2. simpl.
  intros H. apply in_app_or in H. destruct H as [H|H].
  - apply (step_create_sendable e st). now rewrite E1.
  - apply (IH st1). now rewrite E2.
Qed.

Lemma created_titles_are_trimmed_witness :
  sendable (lit "Walk dog").
Proof.
  apply (created_titles_are_trimmed
           [TitleChange (lit "  Walk dog "); KeyDown "Enter"] initial).
  simpl. left. reflexivity.
Defined.

(** X4. The add action reads the title through [trim]: white space typed
    around a title changes neither whether a call is made nor the title
    sent, and a title of white space only, however long, is rejected with
    the validation message and no call. *)
Theorem add_ignores_surrounding_space (st : State) (p s q : jsstring) :
  forallb isWhiteSpace p = true -> forallb isWhiteSpace q = true ->
  snd (step Add (setTitle (p ++ s ++ q) st)) = snd (step Add (setTitle s st)) /\
  snd (step Add (setTitle (p ++ q) st)) = [] /\
  error (fst (step Add (setTitle (p ++ q) st)))
  = "Task title must be at least 3 characters.".
Proof.
  intros Hp Hq. simpl. unfold onAdd_start. simpl.
  rewrite (trim_padding p s q Hp Hq).
  assert (Hw : trim (p ++ q) = []).
  { apply trim_all_white. rewrite forallb_app. now rewrite Hp, Hq. }
  rewrite Hw. simpl. split; [|split; reflexivity].
  now destruct (List.length (trim s) <? 3).
Qed.

Lemma add_ignores_surrounding_space_witness :
  snd (step Add (setTitle (lit "  " ++ lit "Walk dog" ++ lit " ") initial))
  = [Api.CreateTask (lit "Walk dog")] /\
  snd (step Add (setTitle (lit "  " ++ lit " ") initial)) = [].
Proof.
  destruct (add_ignores_surrounding_space initial (lit "  ") (lit "Walk dog")
              (lit " ") eq_refl eq_refl) as [H1 [H2 _]].
  split; [rewrite H1; reflexivity | exact H2].
Defined.

Lemma completedCount_app l1 l2 :
  completedCount (l1 ++ l2) = completedCount l1 + completedCount l2.
Proof. unfold completedCount. now rewrite filter_app, length_app. Qed.

(** X5. When [createTask] resolves, the returned task is appended after the
    entries already there, which keep their slots; the counts grow
    accordingly, an open task takes the all-done banner away, and the input
    is cleared and focused.  When it rejects, the list and the typed title
    are left as they are, so the user can retry. *)
Theorem add_success_appends (st : State) (res : TaskEnvelope) :
  let st' := onAdd_settle (Resolved res) st in
  let st'' := onAdd_settle Rejected st in
  tasks st' = tasks st ++ [task res] /\
  (forall i t, nth_error (tasks st) i = Some t ->
               nth_error (tasks st') i = Some t) /\
  nth_error (tasks st') (totalCount (tasks st)) = Some (task res) /\
  totalCount (tasks st') = S (totalCount (tasks st)) /\
  completedCount (tasks st')
  = completedCount (tasks st) + (if completed (task res) then 1 else 0) /\
  (completed (task res) = false -> allDone (tasks st') = false) /\
  title st' = [] /\ inputFocused st' = true /\
  tasks st'' = tasks st /\ title st'' = title st /\
  error st'' = "Could not add task. Please try again.".
Proof.
  cbn zeta.
  assert (E : tasks (onAdd_settle (Resolved res) st) = tasks st ++ [task res]).
  { simpl. now rewrite clearTimeout_tasks. }
  rewrite E. repeat split.
  - intros i t H. rewrite nth_error_app1; [exact H|].
    apply nth_error_Some. congruence.
  - unfold totalCount. rewrite nth_error_app2, Nat.sub_diag; [reflexivity|lia].
  - unfold totalCount. rewrite length_app. simpl. lia.
  - rewrite completedCount_app. unfold completedCount at 2. simpl.
    now destruct (completed (task res)).
  - intros Hc. unfold allDone. apply andb_false_iff. right.
    apply Nat.eqb_neq. rewrite completedCount_app.
    unfold completedCount at 2, totalCount. simpl. rewrite Hc, length_app.
    simpl. pose proof (completedCount_le_totalCount (tasks st)) as Hle.
    unfold totalCount in Hle. lia.
  - simpl. now destruct (taskBoardSaveTimeout st).
Qed.

Lemma add_success_appends_witness :
  let t1 := mkTask (IdNum 1) (lit "Buy milk") true in
  let t2 := mkTask (IdNum 2) (lit "Walk dog") false in
  allDone [t1] = true /\
  allDone (tasks (onAdd_settle (Resolved (mkEnvelope t2))
                    (load (Resolved [t1]) initial))) = false.
Proof.
  cbn zeta. split; [reflexivity|].
  destruct (add_success_appends
              (load (Resolved [mkTask (IdNum 1) (lit "Buy milk") true]) initial)
              (mkEnvelope (mkTask (IdNum 2) (lit "Walk dog") false)))
    as [_ [_ [_ [_ [_ [H _]]]]]].
  apply H. reflexivity.
Defined.

(** ** Keys *)

(** X6. In the input, Enter does what the add button does, Escape clears
    the title and takes the focus away without any call, and every other
    key leaves the board as it is. *)
Theorem keydown_dispatch (st : State) (key : string) :
  step (KeyDown "Enter") st = step Add st /\
  step (KeyDown "Escape") st = (setInputFocused false (setTitle [] st), []) /\
  (key <> "Enter" -> key <> "Escape" -> step (KeyDown key) st = (st, [])).
Proof.
  split; [|split].
  - simpl. unfold onKeyDown. simpl. now destruct (onAdd_start st).
  - reflexivity.
  - intros H1 H2. simpl. unfold onKeyDown.
    apply String.eqb_neq in H1, H2. now rewrite H1, H2.
Qed.

Lemma keydown_dispatch_witness :
  step (KeyDown "a") (setTitle (lit "Walk dog") initial)
  = (setTitle (lit "Walk dog") initial, []).
Proof.
  apply (proj2 (proj2 (keydown_dispatch (setTitle (lit "Walk dog") initial) "a")));
    discriminate.
Defined.

(** ** Toggle and delete on lists *)

Lemma map_id_on {A} (f : A -> A) (l : list A) :
  (forall x, In x l -> f x = x) -> map f l = l.
Proof.
  induction l as [|x l IH]; simpl; intros H; [reflexivity|].
  rewrite (H x (or_introl eq_refl)), IH; [reflexivity|].
  intros y Hy. apply H. now right.
Qed.

Lemma with_completed_negb_negb (t : Task) :
  with_completed (with_completed t (negb (completed t)))
                 (negb (completed (with_completed t (negb (completed t))))) = t.
Proof. destruct t as [i ti c]. unfold with_completed. simpl. now rewrite negb_involutive. Qed.

(** X7. The optimistic flip looks at the identifier only, so flipping the
    same task twice gives the list back, whichever snapshots of the task
    the two clicks carried. *)
Theorem toggle_twice_restores (task task' : Task) (l : list Task) :
  id task' = id task ->
  toggle_optimistic task' (toggle_optimistic task l) = l.
Proof.
  intros Hid. unfold toggle_optimistic. rewrite map_map, Hid.
  apply map_id_on. intros t _.
  destruct (strict_eq (id t) (id task)) eqn:E; simpl; rewrite E; [|reflexivity].
  apply with_completed_negb_negb.
Qed.

Lemma toggle_twice_restores_witness :
  let t := mkTask (IdNum 1) (lit "Buy milk") false in
  let u := mkTask (IdNum 2) (lit "Walk dog") true in
  toggle_optimistic (with_completed t true) (toggle_optimistic t [t; u]) = [t; u].
Proof.
  cbn zeta.
  apply (toggle_twice_restores (mkTask (IdNum 1) (lit "Buy milk") false)
           (with_completed (mkTask (IdNum 1) (lit "Buy milk") false) true)).
  reflexivity.
Defined.

Lemma absent_fixed (task : Task) (res : TaskEnvelope) (l : list Task) :
  absent (id task) l ->
  toggle_optimistic task l = l /\
  toggle_reconcile task res l = l /\
  toggle_revert task l = l /\
  delete_optimistic task l = l.
Proof.
  intros H.
  assert (Hf : forall t, In t l -> strict_eq (id t) (id task) = false).
  { intros t Ht. apply strict_eq_false. now apply H. }
  repeat split; try (apply map_id_on; intros t Ht; now rewrite (Hf t Ht)).
  unfold delete_optimistic. clear H. induction l as [|t l IH]; simpl; [reflexivity|].
  rewrite (Hf t (or_introl eq_refl)). simpl. f_equal.
  apply IH. intros u Hu. apply Hf. now right.
Qed.

(** X8. When no entry has the identifier of the task (it was deleted in the
    meantime, say), none of the three updates of the toggle changes the
    list: a late response neither resurrects the task nor touches another
    one; and the optimistic removal of a delete changes nothing either. *)
Theorem updates_on_absent_task (task : Task) (res : TaskEnvelope) (l : list Task) :
  absent (id task) l ->
  toggle_optimistic task l = l /\
  toggle_reconcile task res l = l /\
  toggle_revert task l = l /\
  delete_optimistic task l = l.
Proof. apply absent_fixed. Qed.

Lemma updates_on_absent_task_witness :
  let t := mkTask (IdNum 1) (lit "Buy milk") false in
  let u := mkTask (IdNum 2) (lit "Walk dog") true in
  toggle_reconcile t (mkEnvelope (with_completed t true)) [u] = [u].
Proof.
  cbn zeta.
  apply (updates_on_absent_task (mkTask (IdNum 1) (lit "Buy milk") false)
           (mkEnvelope (with_completed (mkTask (IdNum 1) (lit "Buy milk") false) true))
           [mkTask (IdNum 2) (lit "Walk dog") true]).
  intros t [<-|[]]. discriminate.
Defined.

(** With unique identifiers, the list splits around the one entry that has
    the identifier of a task in it. *)
Lemma unique_ids_split (task : Task) (l : list Task) :
  unique_ids l -> In task l ->
  exists l1 l2, l = l1 ++ task :: l2 /\
                absent (id task) l1 /\ absent (id task) l2.
Proof.
  unfold unique_ids. intros Hnd Hin.
  destruct (in_split task l Hin) as [l1 [l2 E]]. exists l1, l2.
  split; [exact E|]. subst l.
  rewrite map_app in Hnd. simpl in Hnd.
  apply NoDup_remove_2 in Hnd.
  split; intros t Ht Hid; apply Hnd; apply in_or_app; [left|right];
    rewrite <- Hid; now apply in_map.
Qed.

(** X9. With unique identifiers and the task in the list, the optimistic
    flip changes exactly the slot of the task, the optimistic removal
    takes exactly that slot out, the completed count moves by one, and
    reconciling with a response that echoes the flipped task changes
    nothing more. *)
Theorem toggle_delete_one_slot (task : Task) (l : list Task) :
  unique_ids l -> In task l ->
  exists l1 l2,
    l = l1 ++ task :: l2 /\
    let flipped := with_completed task (negb (completed task)) in
    toggle_optimistic task l = l1 ++ flipped :: l2 /\
    toggle_reconcile task (mkEnvelope flipped) (toggle_optimistic task l)
    = toggle_optimistic task l /\
    delete_optimistic task l = l1 ++ l2 /\
    S (List.length (delete_optimistic task l)) = List.length l /\
    completedCount (toggle_optimistic task l)
    + (if completed task then 1 else 0)
    = completedCount l + (if completed task then 0 else 1).
Proof.
  intros Hu Hin.
  destruct (unique_ids_split task l Hu Hin) as [l1 [l2 [E [H1 H2]]]].
  exists l1, l2. split; [exact E|]. cbn zeta.
  set (flipped := with_completed task (negb (completed task))).
  set (res := mkEnvelope flipped).
  destruct (absent_fixed task res l1 H1) as [O1 [R1 [_ D1]]].
  destruct (absent_fixed task res l2 H2) as [O2 [R2 [_ D2]]].
  assert (EO : toggle_optimistic task l = l1 ++ flipped :: l2).
  { subst l. unfold toggle_optimistic in *. rewrite map_app. simpl.
    now rewrite O1, O2, strict_eq_refl. }
  assert (ED : delete_optimistic task l = l1 ++ l2).
  { subst l. unfold delete_optimistic in *. rewrite filter_app. simpl.
    now rewrite D1, D2, strict_eq_refl. }
  rewrite EO, ED. repeat split.
  - unfold toggle_reconcile in *. rewrite map_app, map_cons, R1, R2.
    change (id flipped) with (id task). now rewrite strict_eq_refl.
  - subst l. rewrite !length_app. simpl. lia.
  - subst l. rewrite !completedCount_app.
    change (flipped :: l2) with ([flipped] ++ l2).
    change (task :: l2) with ([task] ++ l2).
    rewrite !completedCount_app. unfold completedCount at 2 5. simpl.
    destruct (completed task); simpl; lia.
Qed.

Lemma toggle_delete_one_slot_witness :
  let t := mkTask (IdNum 1) (lit "Buy milk") false in
  let u := mkTask (IdNum 2) (lit "Walk dog") true in
  S (List.length (delete_optimistic t [u; t])) = 2.
Proof.
  cbn zeta.
  assert (Hu : unique_ids [mkTask (IdNum 2) (lit "Walk dog") true;
                           mkTask (IdNum 1) (lit "Buy milk") false]).
  { unfold unique_ids. simpl. constructor.
    - intros [H|[]]. discriminate H.
    - constructor; [intros []|constructor]. }
  destruct (toggle_delete_one_slot (mkTask (IdNum 1) (lit "Buy milk") false)
              _ Hu (or_intror (or_introl eq_refl)))
    as [l1 [l2 [_ [_ [_ [_ [H _]]]]]]].
  exact H.
Defined.

Lemma filter_filter_comm {A} (p q : A -> bool) (l : list A) :
  filter p (filter q l) = filter q (filter p l).
Proof.
  induction l as [|x l IH]; simpl; [reflexivity|].
  destruct (p x) eqn:P, (q x) eqn:Q; simpl; rewrite ?P, ?Q, IH; reflexivity.
Qed.

Lemma filter_idempotent {A} (p : A -> bool) (l : list A) :
  filter p (filter p l) = filter p l.
Proof.
  induction l as [|x l IH]; simpl; [reflexivity|].
  destruct (p x) eqn:P; simpl; rewrite ?P, IH; reflexivity.
Qed.

Lemma filter_map_swap {A} (p : A -> bool) (f : A -> A) (l : list A) :
  (forall x, p (f x) = p x) -> filter p (map f l) = map f (filter p l).
Proof.
  intros H. induction l as [|x l IH]; simpl; [reflexivity|].
  rewrite H. destruct (p x); simpl; now rewrite IH.
Qed.

(** X10. Optimistic removals compose: removing the same task twice is
    removing it once, two removals commute, and a removal commutes with
    the optimistic flip and with the revert of any task, which keep the
    identifiers. *)
Theorem delete_composes (a b : Task) (l : list Task) :
  delete_optimistic a (delete_optimistic a l) = delete_optimistic a l /\
  delete_optimistic a (delete_optimistic b l)
  = delete_optimistic b (delete_optimistic a l) /\
  delete_optimistic a (toggle_optimistic b l)
  = toggle_optimistic b (delete_optimistic a l) /\
  delete_optimistic a (toggle_revert b l)
  = toggle_revert b (delete_optimistic a l).
Proof.
  unfold delete_optimistic, toggle_optimistic, toggle_revert. repeat split.
  - apply filter_idempotent.
  - apply filter_filter_comm.
  - apply filter_map_swap. intros t. now destruct (strict_eq (id t) (id b)).
  - apply filter_map_swap. intros t. now destruct (strict_eq (id t) (id b)).
Qed.

(** Leaving entries out keeps the identifiers unique. *)
Lemma unique_ids_filter (keep : Task -> bool) (l : list Task) :
  unique_ids l -> unique_ids (filter keep l).
Proof.
  unfold unique_ids. induction l as [|t l IH]; simpl; intros H; [constructor|].
  apply NoDup_cons_iff in H. destruct H as [Hn Hd].
  destruct (keep t); simpl; [|now apply IH].
  apply NoDup_cons_iff. split; [|now apply IH].
  intros Hin. apply Hn. apply in_map_iff in Hin.
  destruct Hin as [u [Hu Hin]]. apply filter_In in Hin.
  rewrite <- Hu. apply in_map. tauto.
Qed.

(** X11. The optimistic flip, the revert and the optimistic removal keep the
    identifiers unique; the reconciliation and the append of an add keep
    them unique when the task of the response brings the identifier it was
    asked for, respectively one that is not in the list. *)
Theorem unique_ids_kept (task : Task) (res : TaskEnvelope) (l : list Task) :
  unique_ids l ->
  unique_ids (toggle_optimistic task l) /\
  unique_ids (toggle_revert task l) /\
  unique_ids (delete_optimistic task l) /\
  (id (Board.task res) = id task -> unique_ids (toggle_reconcile task res l)) /\
  (absent (id (Board.task res)) l -> unique_ids (l ++ [Board.task res])).
Proof.
  unfold unique_ids. intros H. repeat split.
  - now rewrite toggle_optimistic_ids.
  - now rewrite toggle_revert_ids.
  - now apply unique_ids_filter.
  - intros Hid. replace (map id (toggle_reconcile task res l)) with (map id l);
      [exact H|].
    unfold toggle_reconcile. rewrite map_map. apply map_ext.
    intros t. destruct (strict_eq (id t) (id task)) eqn:E; [|reflexivity].
    apply strict_eq_spec in E. congruence.
  - intros Ha. rewrite map_app. simpl.
    apply NoDup_app; [exact H | repeat constructor; intros [] |].
    intros i Hi [<-|[]]. apply in_map_iff in Hi.
    destruct Hi as [t [Ht Hin]]. now apply (Ha t Hin).
Qed.

Lemma unique_ids_kept_witness :
  let t := mkTask (IdNum 1) (lit "Buy milk") false in
  unique_ids (toggle_optimistic t [t]) /\ unique_ids (delete_optimistic t [t]).
Proof.
  cbn zeta.
  assert (Hu : unique_ids [mkTask (IdNum 1) (lit "Buy milk") false]).
  { unfold unique_ids. simpl. constructor; [intros []|constructor]. }
  destruct (unique_ids_kept (mkTask (IdNum 1) (lit "Buy milk") false)
              (mkEnvelope (mkTask (IdNum 1) (lit "Buy milk") true)) _ Hu)
    as [H1 [_ [H3 _]]].
  split; [exact H1 | exact H3].
Defined.

(** ** Derived values and the rendered page *)

Lemma filter_length_all {A} (p : A -> bool) (l : list A) :
  List.length (filter p l) = List.length l <->
  (forall x, In x l -> p x = true).
Proof.
  induction l as [|x l IH]; simpl.
  - split; [intros _ y [] | reflexivity].
  - pose proof (filter_length_le p l) as Hle.
    destruct (p x) eqn:P; simpl; split.
    + intros H y [<-|Hy]; [exact P|]. apply IH; [lia|exact Hy].
    + intros H. f_equal. apply IH. intros y Hy. apply H. now right.
    + intros H. lia.
    + intros H. specialize (H x (or_introl eq_refl)). congruence.
Qed.

Lemma filter_nil_none {A} (p : A -> bool) (l : list A) :
  filter p l = [] <-> (forall x, In x l -> p x = false).
Proof.
  induction l as [|x l IH]; simpl.
  - split; [intros _ y [] | reflexivity].
  - destruct (p x) eqn:P; split.
    + discriminate.
    + intros H. specialize (H x (or_introl eq_refl)). congruence.
    + intros H y [<-|Hy]; [exact P|]. now apply IH.
    + intros H. apply IH. intros y Hy. apply H. now right.
Qed.

Lemma focus_view_empty (ts : list Task) :
  visibleTasks ts true = [] <-> forall t, In t ts -> completed t = true.
Proof.
  unfold visibleTasks. simpl. rewrite filter_nil_none.
  split; intros H t Ht; specialize (H t Ht);
    destruct (completed t); simpl in *; congruence.
Qed.

(** X13. The all-done banner is shown exactly when the list is not empty and
    every task is completed; then the focus view is empty.  The focus view
    is empty exactly when every task is completed. *)
Theorem allDone_iff (ts : list Task) :
  (allDone ts = true <->
   ts <> [] /\ forall t, In t ts -> completed t = true) /\
  (allDone ts = true -> visibleTasks ts true = []) /\
  (visibleTasks ts true = [] <-> forall t, In t ts -> completed t = true).
Proof.
  assert (H1 : allDone ts = true <->
               ts <> [] /\ forall t, In t ts -> completed t = true).
  { unfold allDone, completedCount, totalCount.
    rewrite andb_true_iff, Nat.ltb_lt, Nat.eqb_eq, filter_length_all.
    split; intros [Hn Ha]; (split; [|exact Ha]).
    - intros ->. simpl in Hn. lia.
    - destruct ts; [congruence | simpl; lia]. }
  split; [exact H1|]. split; [|apply focus_view_empty].
  intros H. apply focus_view_empty. now apply H1.
Qed.

Lemma allDone_iff_witness :
  visibleTasks [mkTask (IdNum 1) (lit "Buy milk") true] true = [].
Proof.
  apply (proj1 (proj2 (allDone_iff [mkTask (IdNum 1) (lit "Buy milk") true]))).
  reflexivity.
Defined.

(** X14. Once loading is over, the region under the separator is one of
    three: "No tasks yet." without the button when the list is empty;
    "Nothing left to focus on." with the "Show completed" button when the
    list is not empty, focus mode is on and every task is completed; or a
    list of at least one row, the rows being the visible tasks in order,
    each a task of the list with its own flag on the checkbox. *)
Theorem region_cases (st : State) :
  loading st = false ->
  (tasks st = [] /\
   region st = EmptyState "No tasks yet."
                 "Add your first task above. Tip: press Enter to add quickly."
                 false) \/
  (tasks st <> [] /\ focusMode st = true /\
   (forall t, In t (tasks st) -> completed t = true) /\
   region st = EmptyState "Nothing left to focus on."
                 "Focus Mode is hiding completed tasks." true) \/
  (exists rows, rows <> [] /\ region st = TaskList rows /\
     map row_task rows = visibleTasks (tasks st) (focusMode st) /\
     forall r, In r rows ->
       In (row_task r) (tasks st) /\ checked r = completed (row_task r)).
Proof.
  intros Hl. unfold region. rewrite Hl.
  destruct (visibleTasks (tasks st) (focusMode st)) as [|v vs] eqn:E.
  - simpl. destruct (tasks st) as [|t ts] eqn:Et; [left; now split|].
    right. left. simpl.
    destruct (focusMode st) eqn:F; [|discriminate E].
    split; [discriminate|]. split; [reflexivity|]. split; [|reflexivity].
    apply (proj1 (focus_view_empty (t :: ts))). exact E.
  - right. right. exists (map row (v :: vs)). simpl.
    split; [discriminate|]. split; [reflexivity|]. split.
    + f_equal. rewrite map_map. apply map_id.
    + assert (Hin : forall u, In u (v :: vs) -> In u (tasks st)).
      { intros u Hu. rewrite <- E in Hu. unfold visibleTasks in Hu.
        destruct (negb (focusMode st)); [exact Hu|].
        apply filter_In in Hu. tauto. }
      intros r [<-|Hr]; [split; [apply Hin; now left | reflexivity]|].
      apply in_map_iff in Hr. destruct Hr as [u [<- Hu]].
      split; [apply Hin; now right | reflexivity].
Qed.

Lemma region_cases_witness :
  let st := load (Resolved [mkTask (IdNum 1) (lit "Buy milk") true]) initial in
  region (setFocusMode true st)
  = EmptyState "Nothing left to focus on."
      "Focus Mode is hiding completed tasks." true.
Proof.
  cbn zeta.
  destruct (region_cases
              (setFocusMode true
                 (load (Resolved [mkTask (IdNum 1) (lit "Buy milk") true]) initial))
              eq_refl) as [[H _]|[[_ [_ [_ H]]]|[rows [_ [H _]]]]].
  - discriminate H.
  - exact H.
  - discriminate H.
Defined.

(** X15. The "Show completed" button (which switches focus mode off) and the
    switch in the same position make the region the list of all tasks, in
    order, whenever the list is not empty and loading is over. *)
Theorem show_completed_lists_all (st : State) :
  loading st = false -> tasks st <> [] ->
  region (fst (step (FocusModeChange false) st))
  = TaskList (map row (tasks st)).
Proof.
  intros Hl Hn. simpl. unfold region. simpl. rewrite Hl.
  destruct (tasks st); [congruence | reflexivity].
Qed.

Lemma show_completed_lists_all_witness :
  let t := mkTask (IdNum 1) (lit "Buy milk") true in
  region (fst (step (FocusModeChange false)
                 (setFocusMode true (load (Resolved [t]) initial))))
  = TaskList [row t].
Proof.
  cbn zeta.
  apply (show_completed_lists_all
           (setFocusMode true
              (load (Resolved [mkTask (IdNum 1) (lit "Buy milk") true]) initial)));
    [reflexivity | discriminate].
Defined.

(** ** Time *)

Lemma fold_run (fired : list Timeout) (st : State) :
  fold_left (fun s t => run (callback t) s) fired st
  = match fired with [] => st | _ => setSaveState Idle st end.
Proof.
  revert st. induction fired as [|t fired IH]; intros st; simpl; [reflexivity|].
  rewrite IH. destruct (callback t). now destruct fired.
Qed.

(** [elapse] field by field. *)
Lemma elapse_eq (dt : nat) (st : State) :
  elapse dt st
  = mkState (tasks st) (loading st) (error st) (title st) (focusMode st)
      (match filter (fun t => due t <=? clock st + dt) (timeouts st) with
       | [] => saveState st
       | _ => Idle
       end)
      (inputFocused st) (clock st + dt)
      (filter (fun t => negb (due t <=? clock st + dt)) (timeouts st))
      (nextHandle st) (taskBoardSaveTimeout st).
Proof.
  unfold elapse. rewrite fold_run.
  now destruct (filter (fun t => due t <=? clock st + dt) (timeouts st)).
Qed.

Lemma elapse_twice_lists (n1 n2 : nat) (s : SaveState) (l : list Timeout) :
  n1 <= n2 ->
  filter (fun t => negb (due t <=? n2)) (filter (fun t => negb (due t <=? n1)) l)
  = filter (fun t => negb (due t <=? n2)) l /\
  match filter (fun t => due t <=? n2) (filter (fun t => negb (due t <=? n1)) l) with
  | [] => match filter (fun t => due t <=? n1) l with [] => s | _ => Idle end
  | _ => Idle
  end
  = match filter (fun t => due t <=? n2) l with [] => s | _ => Idle end.
Proof.
  intros Hle. induction l as [|t l [IH1 IH2]]; simpl; [now split|].
  destruct (due t <=? n1) eqn:E1, (due t <=? n2) eqn:E2; simpl;
    rewrite ?E2; simpl.
  - split; [exact IH1|].
    now destruct (filter (fun t => due t <=? n2)
                    (filter (fun t => negb (due t <=? n1)) l)).
  - apply Nat.leb_le in E1. apply Nat.leb_gt in E2. lia.
  - split; [exact IH1 | reflexivity].
  - split; [now rewrite IH1 | exact IH2].
Qed.

(** X17. With no event in between, letting [b] and then [a] milliseconds
    pass is letting [b + a] pass: the same reverts have fired, the same
    are pending, and the indicator is the same. *)
Theorem elapse_additive (a b : nat) (st : State) :
  elapse a (elapse b st) = elapse (b + a) st.
Proof.
  rewrite (elapse_eq b st), (elapse_eq (b + a) st), elapse_eq. simpl.
  rewrite <- Nat.add_assoc.
  destruct (elapse_twice_lists (clock st + b) (clock st + (b + a))
              (saveState st) (timeouts st)) as [H1 H2]; [lia|].
  now rewrite H1, H2.
Qed.

(** ** Invariants of the timer *)

Lemma setSavedSoon_fields (st : State) :
  saveState (setSavedSoon st) = Saved /\
  clock (setSavedSoon st) = clock st /\
  exists kept,
    timeouts (setSavedSoon st)
    = kept ++ [mkTimeout (nextHandle st) (clock st + 1200) SaveStateToIdle] /\
    forall t, In t kept -> In t (timeouts st).
Proof.
  unfold setSavedSoon.
  destruct (taskBoardSaveTimeout st) as [h|] eqn:G; simpl; rewrite G; simpl.
  - repeat split.
    exists (filter (fun t => negb (handle t =? h)) (timeouts st)).
    split; [reflexivity|]. intros t Ht. apply filter_In in Ht. tauto.
  - repeat split. exists (timeouts st). split; [reflexivity | tauto].
Qed.


Lemma setSavedSoon_timer_invariant (st : State) :
  due_within_dwell st -> timer_invariant (setSavedSoon st).
Proof.
  intros H. destruct (setSavedSoon_fields st) as [Hs [Hc [kept [Ht Hk]]]].
  split.
  - intros t Hin. rewrite Hc, Ht in *. apply in_app_or in Hin.
    destruct Hin as [Hin|[<-|[]]]; [apply H; now apply Hk | simpl; lia].
  - intros _. rewrite Ht. now destruct kept.
Qed.

Lemma filter_none_keeps_all {A} (p : A -> bool) (l : list A) :
  filter p l = [] -> filter (fun x => negb (p x)) l = l.
Proof.
  induction l as [|x l IH]; simpl; [reflexivity|].
  destruct (p x); [discriminate|]. simpl. intros H. now rewrite IH.
Qed.

Lemma elapse_timer_invariant (dt : nat) (st : State) :
  timer_invariant st -> timer_invariant (elapse dt st).
Proof.
  intros [Hd Hs]. rewrite elapse_eq. split.
  - intros t Hin. simpl in *. apply filter_In in Hin. destruct Hin as [Hin Hlt].
    apply negb_true_iff, Nat.leb_gt in Hlt. specialize (Hd t Hin). lia.
  - simpl.
    destruct (filter (fun t => due t <=? clock st + dt) (timeouts st)) eqn:E;
      [|discriminate].
    intros H. rewrite (filter_none_keeps_all _ _ E). now apply Hs.
Qed.

Lemma step_timer_invariant (e : Event) (st : State) :
  timer_invariant st -> timer_invariant (fst (step e st)).
Proof.
  intros H. pose proof H as [Hd Hs].
  assert (Hsaving : forall st', timeouts st' = timeouts st ->
            clock st' = clock st -> saveState st' <> Saved ->
            timer_invariant st').
  { intros st' Ht Hc Hn. split; [|intros; contradiction].
    intros t Hin. rewrite Ht in Hin. rewrite Hc. now apply Hd. }
  destruct e as [ |o| |o|task|task o|task|prev o|b|v|key|dt]; simpl.
  - exact H.
  - destruct o; exact H.
  - unfold onAdd_start.
    destruct (List.length (trim (title st)) <? 3); [exact H|].
    apply Hsaving; [reflexivity | reflexivity | discriminate].
  - destruct o as [res|].
    + apply (setSavedSoon_timer_invariant
               (setTitle [] (setTasks (fun p => p ++ [Board.task res]) st))).
      exact Hd.
    + apply Hsaving; [reflexivity | reflexivity | discriminate].
  - apply Hsaving; [reflexivity | reflexivity | discriminate].
  - destruct o as [res|].
    + apply (setSavedSoon_timer_invariant
               (setTasks (toggle_reconcile task res) st)).
      exact Hd.
    + apply Hsaving; [reflexivity | reflexivity | discriminate].
  - apply Hsaving; [reflexivity | reflexivity | discriminate].
  - destruct o as [r|].
    + now apply setSavedSoon_timer_invariant.
    + apply Hsaving; [reflexivity | reflexivity | discriminate].
  - exact H.
  - exact H.
  - unfold onKeyDown, onAdd_start.
    destruct (String.eqb key "Enter"), (List.length (trim (title st)) <? 3),
      (String.eqb key "Escape"); try exact H;
      (apply Hsaving; [reflexivity | reflexivity | discriminate]).
  - now apply elapse_timer_invariant.
Qed.

Lemma steps_timer_invariant (es : list Event) (st : State) :
  timer_invariant st -> timer_invariant (fst (steps es st)).
Proof.
  revert st. induction es as [|e es IH]; intros st H; simpl; [exact H|].
  pose proof (step_timer_invariant e st H) as H1.
  destruct (step e st) as [st1 cs1]. simpl in H1.
  specialize (IH st1 H1). destruct (steps es st1) as [st2 cs2]. exact IH.
Qed.

Lemma initial_timer_invariant : timer_invariant initial.
Proof. split; [intros t [] | discriminate]. Qed.

(** X19. In every state the board can reach, a pending revert is due after
    now and no later than 1200 ms from now, and the indicator shows "saved"
    only while a revert is pending. *)
Theorem reachable_timer_invariant (es : list Event) :
  let st := fst (steps es initial) in
  (forall t, In t (timeouts st) -> clock st < due t <= clock st + 1200) /\
  (saveState st = Saved -> timeouts st <> []).
Proof. apply steps_timer_invariant, initial_timer_invariant. Qed.

(** X18. In every state the board can reach, at most one timeout is pending,
    and it is the one whose handle the global [__taskBoardSaveTimeout]
    holds: every success clears the revert of the one before. *)
Theorem reachable_single_timeout (es : list Event) :
  let st := fst (steps es initial) in
  List.length (timeouts st) <= 1 /\
  forall t, In t (timeouts st) -> taskBoardSaveTimeout st = Some (handle t).
Proof.
  cbn zeta. pose proof (steps_timers_ok es initial I) as H.
  unfold timers_ok in H.
  destruct (timeouts (fst (steps es initial))) as [|t [|t' l]];
    [| |contradiction]; simpl.
  - split; [lia | intros t []].
  - split; [lia|]. now intros u [<-|[]].
Qed.

(** X20. From every state the board can reach, once 1200 ms or more pass
    with no event, nothing is left pending and the indicator does not show
    "saved": the "saved" badge never sticks. *)
Theorem saved_never_sticks (es : list Event) (dt : nat) :
  1200 <= dt ->
  let st := elapse dt (fst (steps es initial)) in
  saveState st <> Saved /\ timeouts st = [].
Proof.
  intros Hdt. cbn zeta.
  destruct (steps_timer_invariant es initial initial_timer_invariant)
    as [Hd Hs].
  set (st := fst (steps es initial)) in *.
  rewrite elapse_eq. simpl.
  assert (Hall : forall t, In t (timeouts st) ->
                           (due t <=? clock st + dt) = true).
  { intros t Hin. apply Nat.leb_le. specialize (Hd t Hin). lia. }
  split.
  - destruct (filter (fun t => due t <=? clock st + dt) (timeouts st)) eqn:E;
      [|discriminate].
    intros HS. apply (Hs HS).
    destruct (timeouts st) as [|t l]; [reflexivity|].
    simpl in E. rewrite (Hall t (or_introl eq_refl)) in E. discriminate.
  - apply filter_nil_none. intros t Hin. now rewrite (Hall t Hin).
Qed.

Lemma saved_never_sticks_witness :
  let t := mkTask (IdNum 1) (lit "Buy milk") false in
  let es := [LoadSettled (Resolved [t]); Toggle t;
             ToggleSettled t (Resolved (mkEnvelope (with_completed t true)))] in
  saveState (fst (steps es initial)) = Saved /\
  saveState (elapse 1200 (fst (steps es initial))) <> Saved.
Proof.
  cbn zeta. split; [reflexivity|].
  apply (saved_never_sticks
           [LoadSettled (Resolved [mkTask (IdNum 1) (lit "Buy milk") false]);
            Toggle (mkTask (IdNum 1) (lit "Buy milk") false);
            ToggleSettled (mkTask (IdNum 1) (lit "Buy milk") false)
              (Resolved (mkEnvelope
                 (with_completed (mkTask (IdNum 1) (lit "Buy milk") false) true)))]
           1200 (le_n 1200)).
Defined.

(** ** Calls *)

Lemma step_calls_le (e : Event) (st : State) :
  List.length (snd (step e st)) <= (if quiet e then 0 else 1).
Proof.
  destruct e as [ |o| |o|task|task o|task|prev o|b|v|key|dt]; simpl; try lia.
  - destruct (onAdd_start st) as [st' [c|]]; simpl; lia.
  - destruct (onKeyDown key st) as [st' [c|]]; simpl; lia.
Qed.

(** X21. The board makes a call only when a handler starts: at most one per
    event, and none when a call settles (a failure is not retried), when
    time passes, when the switch is used or when the user types.  So over
    any sequence of events there are at most as many calls as there are
    load, add, toggle, delete and key events in it. *)
Theorem calls_only_when_started (es : list Event) (st : State) (e : Event) :
  (quiet e = true -> snd (step e st) = []) /\
  List.length (snd (step e st)) <= 1 /\
  List.length (snd (steps es st))
  <= List.length (filter (fun e => negb (quiet e)) es).
Proof.
  split; [|split].
  - intros Hq. pose proof (step_calls_le e st) as H. rewrite Hq in H.
    destruct (snd (step e st)); [reflexivity | simpl in H; lia].
  - pose proof (step_calls_le e st) as H. destruct (quiet e); lia.
  - revert st. induction es as [|e' es IH]; intros st; simpl; [lia|].
    pose proof (step_calls_le e' st) as H.
    destruct (step e' st) as [st1 cs1]. simpl in H.
    specialize (IH st1). destruct (steps es st1) as [st2 cs2]. simpl in *.
    rewrite length_app. destruct (quiet e'); simpl; lia.
Qed.

Lemma calls_only_when_started_witness :
  snd (step (ToggleSettled (mkTask (IdNum 1) (lit "Buy milk") false) Rejected)
         initial) = [].
Proof.
  apply (proj1 (calls_only_when_started [] initial
                  (ToggleSettled (mkTask (IdNum 1) (lit "Buy milk") false)
                     Rejected))).
  reflexivity.
Defined.

(** X22. Whenever an event issues a call, the error banner is cleared in the
    same step; with a load the loading flag is up, and with a create, patch
    or delete the indicator shows "saving".  A patch asks for the opposite
    of the flag of the task that was clicked, a delete names its
    identifier, and a create sends the trimmed title. *)
Theorem call_effects (e : Event) (st : State) (c : Api.Call) :
  In c (snd (step e st)) ->
  let st' := fst (step e st) in
  error st' = "" /\
  match c with
  | Api.ListTasks => e = Load /\ loading st' = true
  | Api.CreateTask t =>
      (e = Add \/ e = KeyDown "Enter") /\ t = trim (title st) /\
      saveState st' = Saving
  | Api.PatchTaskCompletion i b =>
      (exists task, e = Toggle task /\ i = id task /\
                    b = negb (completed task)) /\
      saveState st' = Saving
  | Api.DeleteTask i =>
      (exists task, e = Delete task /\ i = id task) /\ saveState st' = Saving
  end.
Proof.
  destruct e as [ |o| |o|task|task o|task|prev o|b|v|key|dt]; simpl;
    try (intros []; fail).
  - intros [<-|[]]. repeat split.
  - unfold onAdd_start.
    destruct (List.length (trim (title st)) <? 3); simpl; [intros []|].
    intros [<-|[]]. repeat split. now left.
  - intros [<-|[]]. repeat split. now exists task.
  - intros [<-|[]]. repeat split. now exists task.
  - unfold onKeyDown. destruct (String.eqb key "Enter") eqn:K.
    + apply String.eqb_eq in K. subst key. simpl. unfold onAdd_start.
      destruct (List.length (trim (title st)) <? 3); simpl; [intros []|].
      intros [<-|[]]. repeat split. now right.
    + destruct (String.eqb key "Escape"); intros [].
Qed.

Lemma call_effects_witness :
  let t := mkTask (IdNum 1) (lit "Buy milk") false in
  let st := load Rejected initial in
  error st = "Could not load tasks. Please refresh." /\
  error (fst (step (Toggle t) st)) = "".
Proof.
  cbn zeta. split; [reflexivity|].
  apply (call_effects (Toggle (mkTask (IdNum 1) (lit "Buy milk") false))
           (load Rejected initial)
           (Api.PatchTaskCompletion (IdNum 1) true)).
  left. reflexivity.
Defined.

(** X23. The task list changes only when a load or an add resolves, when a
    toggle starts or settles, when a delete starts and when a delete
    rejects: starting a load or an add, pressing a key, typing, the
    switch, time passing, a rejected load or add and a resolved delete
    leave it as it is.  Focus mode changes only through the switch. *)
Theorem task_list_frame (e : Event) (st : State) :
  (keeps_tasks e = true -> tasks (fst (step e st)) = tasks st) /\
  ((forall b, e <> FocusModeChange b) ->
   focusMode (fst (step e st)) = focusMode st).
Proof.
  split.
  - destruct e as [ |o| |o|task|task o|task|prev o|b|v|key|dt]; simpl;
      try discriminate; try reflexivity.
    + destruct o; [discriminate | reflexivity].
    + intros _. unfold onAdd_start.
      now destruct (List.length (trim (title st)) <? 3).
    + destruct o; [discriminate | reflexivity].
    + destruct o; [|discriminate]. intros _. apply setSavedSoon_tasks.
    + intros _. unfold onKeyDown, onAdd_start.
      now destruct (String.eqb key "Enter"),
        (List.length (trim (title st)) <? 3), (String.eqb key "Escape").
    + intros _. now rewrite elapse_eq.
  - intros Hne.
    assert (Hs : forall s, focusMode (setSavedSoon s) = focusMode s).
    { intros s. unfold setSavedSoon. simpl.
      now destruct (taskBoardSaveTimeout s). }
    destruct e as [ |o| |o|task|task o|task|prev o|b|v|key|dt]; simpl;
      try reflexivity.
    + now destruct o.
    + unfold onAdd_start. now destruct (List.length (trim (title st)) <? 3).
    + destruct o; [|reflexivity]. simpl.
      now destruct (taskBoardSaveTimeout st).
    + destruct o; [|reflexivity]. simpl.
      now destruct (taskBoardSaveTimeout st).
    + destruct o; [apply Hs | reflexivity].
    + now destruct (Hne b).
    + unfold onKeyDown, onAdd_start.
      now destruct (String.eqb key "Enter"),
        (List.length (trim (title st)) <? 3), (String.eqb key "Escape").
    + now rewrite elapse_eq.
Qed.

Lemma task_list_frame_witness :
  let t := mkTask (IdNum 1) (lit "Buy milk") false in
  tasks (fst (step (Elapse 5000) (load (Resolved [t]) initial))) = [t].
Proof.
  cbn zeta.
  apply (proj1 (task_list_frame (Elapse 5000)
                  (load (Resolved [mkTask (IdNum 1) (lit "Buy milk") false])
                     initial))).
  reflexivity.
Defined.

(** ** [clamp] *)

Lemma SFcompare_antisym (x y : number) :
  SFcompare y x = option_map CompOpp (SFcompare x y).
Proof.
  destruct x as [sx|sx| |sx mx ex], y as [sy|sy| |sy my ey]; simpl;
    try destruct sx; try destruct sy; try reflexivity;
    change (Pos.compare_cont Eq) with Pos.compare;
    rewrite (Z.compare_antisym ex ey), (Pos.compare_antisym mx my);
    destruct (ex ?= ey)%Z, (mx ?= my)%positive; reflexivity.
Qed.

Lemma leq_refl (x : number) : isNaN x = false -> leq x x = true.
Proof.
  unfold leq, SFleb.
  destruct x as [sx|sx| |sx mx ex]; simpl; try destruct sx;
    try reflexivity; try discriminate; intros _;
    change (Pos.compare_cont Eq) with Pos.compare;
    now rewrite Z.compare_refl, Pos.compare_refl.
Qed.

Lemma ltb_leq (x y : number) : SFltb x y = true -> leq x y = true.
Proof. unfold leq, SFltb, SFleb. now destruct (SFcompare x y) as [[]|]. Qed.

(** Two numbers, neither below the other and neither NaN, are below or
    equal to each other. *)
Lemma not_ltb_leq (x y : number) :
  isNaN x = false -> isNaN y = false ->
  SFltb x y = false -> SFltb y x = false ->
  leq x y = true /\ leq y x = true.
Proof.
  unfold leq, SFltb, SFleb. rewrite (SFcompare_antisym x y).
  destruct (SFcompare x y) as [[]|] eqn:E; simpl; try discriminate; try tauto.
  intros Hx Hy _ _.
  destruct x as [sx|sx| |sx mx ex], y as [sy|sy| |sy my ey];
    simpl in *; discriminate.
Qed.

Lemma Math_max_cases (x y : number) :
  isNaN x = false -> isNaN y = false ->
  (Math_max x y = x \/ Math_max x y = y) /\
  leq x (Math_max x y) = true /\ leq y (Math_max x y) = true.
Proof.
  intros Hx Hy. unfold Math_max. rewrite Hx, Hy. simpl.
  destruct (SFltb x y) eqn:L1.
  - split; [now right|]. split; [now apply ltb_leq | now apply leq_refl].
  - destruct (SFltb y x) eqn:L2.
    + split; [now left|]. split; [now apply leq_refl | now apply ltb_leq].
    + destruct (not_ltb_leq x y Hx Hy L1 L2) as [H1 H2].
      destruct (isNegZero x).
      * split; [now right|]. split; [exact H1 | now apply leq_refl].
      * split; [now left|]. split; [now apply leq_refl | exact H2].
Qed.

Lemma Math_min_cases (x y : number) :
  isNaN x = false -> isNaN y = false ->
  (Math_min x y = x \/ Math_min x y = y) /\
  leq (Math_min x y) x = true /\ leq (Math_min x y) y = true.
Proof.
  intros Hx Hy. unfold Math_min. rewrite Hx, Hy. simpl.
  destruct (SFltb x y) eqn:L1.
  - split; [now left|]. split; [now apply leq_refl | now apply ltb_leq].
  - destruct (SFltb y x) eqn:L2.
    + split; [now right|]. split; [now apply ltb_leq | now apply leq_refl].
    + destruct (not_ltb_leq x y Hx Hy L1 L2) as [H1 H2].
      destruct (isNegZero x).
      * split; [now left|]. split; [now apply leq_refl | exact H1].
      * split; [now right|]. split; [exact H2 | now apply leq_refl].
Qed.

Lemma clamp_nan (n lo hi : number) : isNaN n = true -> clamp n lo hi = NaN.
Proof.
  intros Hn. unfold clamp, Math_max. rewrite Hn, orb_true_r.
  unfold Math_min. change (isNaN NaN) with true. now rewrite orb_true_r.
Qed.

Lemma clamp_between (m a b : number) :
  isNaN a = false -> isNaN b = false -> leq a b = true -> isNaN m = false ->
  (clamp m a b = m \/ clamp m a b = a \/ clamp m a b = b) /\
  leq a (clamp m a b) = true /\ leq (clamp m a b) b = true.
Proof.
  intros Ha Hb Hab Hm. unfold clamp.
  destruct (Math_max_cases a m Ha Hm) as [Hmax [Hge _]].
  assert (Hmn : isNaN (Math_max a m) = false)
    by (destruct Hmax as [->| ->]; assumption).
  destruct (Math_min_cases b (Math_max a m) Hb Hmn) as [Hmin [Hb1 _]].
  split; [|split; [|exact Hb1]].
  - destruct Hmin as [->| ->]; [tauto|]. destruct Hmax as [->| ->]; tauto.
  - destruct Hmin as [->| ->]; assumption.
Qed.

(** X24. [clamp] returns NaN for NaN; for any other number, with bounds
    [min <= max] that are not NaN, it returns the number itself or one of
    the bounds, and the result lies between the bounds. *)
Theorem clamp_bounds (n lo hi : number) :
  isNaN lo = false -> isNaN hi = false -> leq lo hi = true ->
  (isNaN n = true -> clamp n lo hi = NaN) /\
  (isNaN n = false ->
     (clamp n lo hi = n \/ clamp n lo hi = lo \/ clamp n lo hi = hi) /\
     leq lo (clamp n lo hi) = true /\ leq (clamp n lo hi) hi = true).
Proof.
  intros Hlo Hhi Hle. split; [apply clamp_nan | now apply clamp_between].
Qed.

Lemma clamp_bounds_witness :
  clamp (of_Z 250) (of_nat 0) (of_nat 100) = of_nat 100 /\
  clamp (of_Z (-3)) (of_nat 0) (of_nat 100) = of_nat 0.
Proof.
  split.
  - destruct (proj2 (clamp_bounds (of_Z 250) (of_nat 0) (of_nat 100)
                       eq_refl eq_refl eq_refl) eq_refl)
      as [[H|[H|H]] _]; [discriminate H | discriminate H | exact H].
  - destruct (proj2 (clamp_bounds (of_Z (-3)) (of_nat 0) (of_nat 100)
                       eq_refl eq_refl eq_refl) eq_refl)
      as [[H|[H|H]] _]; [discriminate H | exact H | discriminate H].
Defined.

(** X25. The percentage of any task list is NaN or lies between 0 and 100. *)
Theorem percent_range (ts : list Task) :
  isNaN (percent ts) = true \/
  leq (of_nat 0) (percent ts) = true /\ leq (percent ts) (of_nat 100) = true.
Proof.
  unfold percent. destruct (totalCount ts =? 0); [right; now split|].
  match goal with
  | |- context [clamp ?x _ _] => destruct (isNaN x) eqn:E
  end.
  - left. now rewrite clamp_nan.
  - right. apply clamp_between; [reflexivity | reflexivity | reflexivity | exact E].
Qed.


(** ** The REST client, the other two calls *)

Lemma lit_inj (s s' : string) : lit s = lit s' -> s = s'.
Proof.
  unfold lit. intros H.
  rewrite <- (string_of_list_ascii_of_string s),
          <- (string_of_list_ascii_of_string s').
  f_equal. revert H.
  generalize (list_ascii_of_string s) (list_ascii_of_string s').
  induction l as [|a l IH]; intros [|b l']; simpl; try discriminate;
    [reflexivity|].
  intros [= Hab Hl]. f_equal; [|now apply IH].
  rewrite <- (ascii_N_embedding a), <- (ascii_N_embedding b). now rewrite Hab.
Qed.

Lemma decimal_inj (a b : Z) : decimal a = decimal b -> a = b.
Proof.
  unfold decimal. intros H. apply DecimalZ.to_int_inj.
  assert (Hn : forall z, Z.to_int z <> Decimal.Pos Decimal.Nil /\
                         Z.to_int z <> Decimal.Neg Decimal.Nil).
  { intros [|p|p]; simpl; split; try discriminate; intros [= E];
      now apply (DecimalPos.Unsigned.to_uint_nonnil p). }
  apply (f_equal NilZero.int_of_string) in H.
  rewrite !NilZero.isi in H by apply Hn. now injection H.
Qed.

(** X2. The URL of a task identifies it among identifiers of the same kind:
    two safe integers, or two strings, with the same URL are the same.
    Across kinds it does not: a safe integer and the string of its decimal
    digits have the same URL, although [===] tells them apart. *)
Theorem task_url_identifies (a b : Z) (s s' : jsstring) :
  safe_integer a -> safe_integer b ->
  (Api.task_url (IdNum a) = Api.task_url (IdNum b) -> a = b) /\
  (Api.task_url (IdStr s) = Api.task_url (IdStr s') -> s = s') /\
  Api.task_url (IdStr (lit (decimal a))) = Api.task_url (IdNum a) /\
  strict_eq (IdStr (lit (decimal a))) (IdNum a) = false.
Proof.
  intros _ _. unfold Api.task_url. repeat split.
  - intros H. apply app_inv_head in H. simpl in H.
    now apply decimal_inj, lit_inj.
  - intros H. now apply app_inv_head in H.
Qed.

Lemma task_url_identifies_witness :
  safe_integer 12 /\ safe_integer 21 /\
  Api.task_url (IdNum 12) <> Api.task_url (IdNum 21) /\
  Api.task_url (IdStr (lit "12")) = Api.task_url (IdNum 12).
Proof.
  assert (S12 : safe_integer 12) by (unfold safe_integer; simpl; lia).
  assert (S21 : safe_integer 21) by (unfold safe_integer; simpl; lia).
  split; [exact S12|]. split; [exact S21|].
  destruct (task_url_identifies 12 21 [] [] S12 S21) as [H1 [_ [H3 _]]].
  split; [|exact H3].
  intros H. apply H1 in H. discriminate H.
Defined.

(** X1. [listTasks] resolves with the body of the response, unchanged;
    [deleteTask] resolves with [true] whatever the response holds; each
    rejects exactly when its request fails, and looks at no other request
    of the backend. *)
Theorem client_list_and_delete (api api' : Api.Http) (i : Id) (v : Api.Json) :
  let get := Api.mkRequest Api.GET Api.tasks_url None in
  let del := Api.mkRequest Api.DELETE (Api.task_url i) None in
  (Api.listTasks api = Resolved v <-> api get = Resolved (Api.mkResponse v)) /\
  (Api.listTasks api = Rejected <-> api get = Rejected) /\
  (Api.deleteTask api i = Resolved v <->
   v = Api.JBool true /\ exists r, api del = Resolved r) /\
  (Api.deleteTask api i = Rejected <-> api del = Rejected) /\
  (api get = api' get -> Api.listTasks api = Api.listTasks api') /\
  (api del = api' del -> Api.deleteTask api i = Api.deleteTask api' i).
Proof.
  cbn zeta. unfold Api.listTasks, Api.deleteTask.
  split; [|split; [|split; [|split; [|split]]]];
    try (intros ->; reflexivity).
  - destruct (api _) as [[d]|]; simpl; split; intros H;
      try discriminate; now injection H as ->.
  - destruct (api _) as [[d]|]; simpl; split; intros H;
      try discriminate; reflexivity.
  - destruct (api _) as [r|]; simpl; split.
    + intros [= <-]. split; [reflexivity | now exists r].
    + intros [-> _]. reflexivity.
    + discriminate.
    + intros [_ [r H]]. discriminate H.
  - destruct (api _) as [r|]; simpl; split; intros H;
      try discriminate; reflexivity.
Qed.

Lemma client_list_and_delete_witness :
  let t := mkTask (IdNum 2) (lit "Walk dog") false in
  Api.deleteTask (fun _ => Resolved (Api.mkResponse (Api.envelope_json t)))
    (IdNum 2)
  = Resolved (Api.JBool true).
Proof.
  cbn zeta.
  apply (proj1 (proj2 (proj2 (client_list_and_delete
           (fun _ => Resolved (Api.mkResponse
              (Api.envelope_json (mkTask (IdNum 2) (lit "Walk dog") false))))
           (fun _ => Rejected) (IdNum 2) (Api.JBool true))))).
  split; [reflexivity|]. eexists. reflexivity.
Defined.

(** ** Responses out of order *)

(** X12. Two responses for the same task overwrite each other by
    identifier: when the first brings the identifier it was asked for,
    reconciling with it and then with a second one is reconciling with the
    second alone, so the response that arrives last wins. *)
Theorem last_response_wins (task : Task) (r1 r2 : TaskEnvelope) (l : list Task) :
  id (Board.task r1) = id task ->
  toggle_reconcile task r2 (toggle_reconcile task r1 l)
  = toggle_reconcile task r2 l.
Proof.
  intros Hid. unfold toggle_reconcile. rewrite map_map. apply map_ext.
  intros t. destruct (strict_eq (id t) (id task)) eqn:E; [|now rewrite E].
  now rewrite Hid, strict_eq_refl.
Qed.

Lemma last_response_wins_witness :
  let t := mkTask (IdNum 1) (lit "Buy milk") false in
  toggle_reconcile t (mkEnvelope t)
    (toggle_reconcile t (mkEnvelope (with_completed t true)) [t]) = [t].
Proof.
  cbn zeta.
  rewrite (last_response_wins (mkTask (IdNum 1) (lit "Buy milk") false)
             (mkEnvelope (with_completed (mkTask (IdNum 1) (lit "Buy milk") false) true))
             (mkEnvelope (mkTask (IdNum 1) (lit "Buy milk") false))
             [mkTask (IdNum 1) (lit "Buy milk") false] eq_refl).
  reflexivity.
Defined.

(** ** Loading *)

Lemma step_keeps_loading (e : Event) (st : State) :
  load_settles e = false -> loading st = true ->
  loading (fst (step e st)) = true.
Proof.
  intros He Hl.
  assert (Hs : forall s, loading (setSavedSoon s) = loading s).
  { intros s. unfold setSavedSoon. simpl. now destruct (taskBoardSaveTimeout s). }
  destruct e as [ |o| |o|task|task o|task|prev o|b|v|key|dt]; simpl;
    try exact Hl; try reflexivity; try discriminate.
  - unfold onAdd_start. now destruct (List.length (trim (title st)) <? 3).
  - destruct o; [|exact Hl]. simpl. now destruct (taskBoardSaveTimeout st).
  - destruct o; [|exact Hl]. simpl. now destruct (taskBoardSaveTimeout st).
  - destruct o; [now rewrite Hs | exact Hl].
  - unfold onKeyDown, onAdd_start.
    now destruct (String.eqb key "Enter"),
      (List.length (trim (title st)) <? 3), (String.eqb key "Escape").
  - now rewrite elapse_eq.
Qed.

(** X16. The loading flag is taken down only when a load settles: from a
    state that is loading (the first render is), whatever sequence of
    other events follows, the page shows the loading message and the
    refresh button stays disabled. *)
Theorem loading_until_settled (es : list Event) (st : State) :
  loading st = true ->
  forallb (fun e => negb (load_settles e)) es = true ->
  let st' := fst (steps es st) in
  loading st' = true /\
  main (render st') = LoadingMessage /\
  refreshDisabled (render st') = true.
Proof.
  cbn zeta. intros Hl Hes.
  assert (H : loading (fst (steps es st)) = true).
  { revert st Hl. induction es as [|e es IH]; intros st Hl; simpl; [exact Hl|].
    simpl in Hes. apply andb_true_iff in Hes. destruct Hes as [He Hes].
    apply negb_true_iff in He.
    pose proof (step_keeps_loading e st He Hl) as H1.
    destruct (step e st) as [st1 cs1]. simpl in H1.
    specialize (IH Hes st1 H1). now destruct (steps es st1). }
  split; [exact H|]. simpl. unfold region. now rewrite H.
Qed.

Lemma loading_until_settled_witness :
  main (render (fst (steps [TitleChange (lit "Walk dog"); Add; Elapse 3000]
                       initial)))
  = LoadingMessage.
Proof.
  apply (loading_until_settled
           [TitleChange (lit "Walk dog"); Add; Elapse 3000] initial);
    reflexivity.
Defined.
